(** * eBay search analyzer: scraper.py and text_analyzer.py

    A shallow embedding of the extraction and analysis pipeline.

    Conventions of the embedding.
    - Python [str] values are [string]s, one character per code point.  The
      embedding covers ASCII text: on it [len], [isalpha], [lower], [title],
      [strip], [split] and the digit class of the regular expression are
      those of Python.  Outside ASCII they are not (Python's [title] can
      lengthen a word, its [isalpha] and [lower] know more letters), so a
      property that depends on them is stated for ASCII text.
    - Python [float] prices are exact rationals ([Q]); every price that the
      scraper produces is a decimal literal, so its value is a rational.
      Rounding a float that lies close to a tie can fall to either side of
      it; the properties of the statistics are stated so that they hold for
      either side.
    - A Python exception is a value [Raise e] of the result type [exc].
    - Third-party code (the NLTK tokenizer and stopword corpus, the HTML
      parser, the HTTP client) enters as Section variables. *)

From Stdlib Require Import List String Ascii Bool Arith ZArith NArith QArith Lia.
From Stdlib Require Import Permutation Sorted DecimalString.
Import ListNotations.

Open Scope string_scope.

(** ** Exceptions *)

Inductive exception : Type :=
| RequestException (msg : string)   (* requests.RequestException and subclasses *)
| ValueError (msg : string)
| LookupError (msg : string)        (* raised by NLTK when a resource is missing *)
| Exception (msg : string).         (* plain Exception(...) *)

Definition str_of_exception (e : exception) : string :=
  match e with
  | RequestException m | ValueError m | LookupError m | Exception m => m
  end.

Inductive exc (A : Type) : Type :=
| Ok (a : A)
| Raise (e : exception).
Arguments Ok {A} a.
Arguments Raise {A} e.

Definition bind {A B : Type} (m : exc A) (k : A -> exc B) : exc B :=
  match m with
  | Ok a => k a
  | Raise e => Raise e
  end.

Notation "x <- m ;; k" := (bind m (fun x => k))
  (at level 61, m at next level, right associativity).

(** [try: m  except Exception: h] *)
Definition try_except {A : Type} (m : exc A) (h : exception -> A) : A :=
  match m with
  | Ok a => a
  | Raise e => h e
  end.

(** ** Python string primitives *)

Definition code (c : ascii) : N := N_of_ascii c.

Definition in_range (lo hi : N) (c : ascii) : bool :=
  ((lo <=? code c) && (code c <=? hi))%N.

Definition is_digit (c : ascii) : bool := in_range 48 57 c.
Definition is_lower (c : ascii) : bool := in_range 97 122 c.
Definition is_upper (c : ascii) : bool := in_range 65 90 c.
Definition is_alpha (c : ascii) : bool := is_lower c || is_upper c.

(** [str.isspace] on one character: tab, LF, VT, FF, CR, FS..US and space. *)
Definition is_space (c : ascii) : bool :=
  in_range 9 13 c || in_range 28 32 c.

(** [string.punctuation]: the 32 ASCII punctuation characters. *)
Definition is_punctuation (c : ascii) : bool :=
  in_range 33 47 c || in_range 58 64 c || in_range 91 96 c || in_range 123 126 c.

Definition lower_char (c : ascii) : ascii :=
  if is_upper c then ascii_of_N (code c + 32) else c.

Definition upper_char (c : ascii) : ascii :=
  if is_lower c then ascii_of_N (code c - 32) else c.

Fixpoint map_string (f : ascii -> ascii) (s : string) : string :=
  match s with
  | EmptyString => EmptyString
  | String c s' => String (f c) (map_string f s')
  end.

Fixpoint filter_string (p : ascii -> bool) (s : string) : string :=
  match s with
  | EmptyString => EmptyString
  | String c s' => if p c then String c (filter_string p s') else filter_string p s'
  end.

Fixpoint forall_string (p : ascii -> bool) (s : string) : bool :=
  match s with
  | EmptyString => true
  | String c s' => p c && forall_string p s'
  end.

(** [s.lower()] *)
Definition lower (s : string) : string := map_string lower_char s.

(** [s.isalpha()]: at least one character and all of them alphabetic; the
    letters are those of ASCII. *)
Definition isalpha (s : string) : bool :=
  match s with
  | EmptyString => false
  | _ => forall_string is_alpha s
  end.

(** [len(s)]: the number of characters. *)
Definition len (s : string) : Z := Z.of_nat (String.length s).

(** [s.lstrip()], [s.rstrip()], [s.strip()] *)
Fixpoint lstrip (s : string) : string :=
  match s with
  | String c s' => if is_space c then lstrip s' else s
  | EmptyString => EmptyString
  end.

Fixpoint rstrip (s : string) : string :=
  match s with
  | EmptyString => EmptyString
  | String c s' =>
      match rstrip s' with
      | EmptyString => if is_space c then EmptyString else String c EmptyString
      | r => String c r
      end
  end.

Definition strip (s : string) : string := rstrip (lstrip s).

(** [sub in s] *)
Fixpoint contains (sub s : string) : bool :=
  if String.prefix sub s then true
  else match s with
       | EmptyString => false
       | String _ s' => contains sub s'
       end.

(** [s.replace(',', '')] *)
Definition remove_commas (s : string) : string :=
  filter_string (fun c => negb (Ascii.eqb c ",")) s.

(** [sep.join(parts)] *)
Fixpoint join (sep : string) (parts : list string) : string :=
  match parts with
  | [] => ""
  | [p] => p
  | p :: rest => p ++ sep ++ join sep rest
  end.

(** [s.split()]: maximal runs of non-whitespace characters.  The accumulator
    [cur] holds the run being read, reversed. *)
Fixpoint rev_string (acc s : string) : string :=
  match s with
  | EmptyString => acc
  | String c s' => rev_string (String c acc) s'
  end.

Definition flush (cur : string) : list string :=
  match cur with
  | EmptyString => []
  | _ => [rev_string "" cur]
  end.

Fixpoint split_ws (cur s : string) : list string :=
  match s with
  | EmptyString => flush cur
  | String c s' =>
      if is_space c then (flush cur ++ split_ws "" s')%list
      else split_ws (String c cur) s'
  end.

Definition str_split (s : string) : list string := split_ws "" s.

(** [s.title()] on ASCII text: a letter that follows a letter is lower-cased,
    any other letter is upper-cased; [prev] tells whether the previous
    character was a letter. *)
Fixpoint title_from (prev : bool) (s : string) : string :=
  match s with
  | EmptyString => EmptyString
  | String c s' =>
      String (if is_alpha c then (if prev then lower_char c else upper_char c) else c)
             (title_from (is_alpha c) s')
  end.

Definition title (s : string) : string := title_from false s.

(** ** scraper.py *)

(** *** The pattern [[\d,]+\.\d{2}] *)

Definition digit_or_comma (c : ascii) : bool := is_digit c || Ascii.eqb c ",".

(** [\.\d{2}] at the head of [s]. *)
Definition match_cents (s : string) : option string :=
  match s with
  | String d (String d1 (String d2 _)) =>
      if Ascii.eqb d "." && is_digit d1 && is_digit d2
      then Some (String d (String d1 (String d2 EmptyString)))
      else None
  | _ => None
  end.

(** The whole pattern anchored at the head of [s].  The repetition is greedy:
    it first tries to take one more character, and only when the rest cannot
    match that way does it hand over to [\.\d{2}]. *)
Fixpoint match_here (s : string) : option string :=
  match s with
  | EmptyString => None
  | String c s' =>
      if digit_or_comma c then
        match match_here s' with
        | Some m => Some (String c m)
        | None =>
            match match_cents s' with
            | Some t => Some (String c t)
            | None => None
            end
        end
      else None
  end.

(** [re.search(pattern, s)]: the match at the leftmost start position that has
    one; [.group()] is the matched text. *)
Fixpoint re_search (s : string) : option string :=
  match s with
  | EmptyString => None
  | String _ s' =>
      match match_here s with
      | Some m => Some m
      | None => re_search s'
      end
  end.

(** *** [float(...)] on a decimal literal *)

Fixpoint digits_value (acc : N) (s : string) : option N :=
  match s with
  | EmptyString => Some acc
  | String c s' =>
      if is_digit c then digits_value (acc * 10 + (code c - 48)) s' else None
  end.

(** Splits at the first ".". *)
Fixpoint split_point (s : string) : option (string * string) :=
  match s with
  | EmptyString => None
  | String c s' =>
      if Ascii.eqb c "." then Some (EmptyString, s')
      else match split_point s' with
           | Some (a, b) => Some (String c a, b)
           | None => None
           end
  end.

(** [float(s)] for [s] of the shape [digits "." digits] with at least one digit
    (the only shape the caller passes); any other text raises [ValueError]. *)
Definition float (s : string) : exc Q :=
  let bad := Raise (ValueError ("could not convert string to float: " ++ s)) in
  match split_point s with
  | Some (ip, fp) =>
      match digits_value 0 ip, digits_value 0 fp with
      | Some i, Some f =>
          if ((String.length ip + String.length fp)%nat =? 0)%nat then bad
          else
            let scale := (10 ^ N.of_nat (String.length fp))%N in
            Ok (Qred (Z.of_N (i * scale + f) # N.succ_pos (N.pred scale)))
      | _, _ => bad
      end
  | None => bad
  end.

(** *** extract_price *)

(** A node returned by [select_one]: what the code reads of it is its text. *)
Record Tag : Type := mkTag { get_text : string }.

Definition extract_price_body (price_elem : option Tag) : exc (option Q) :=
  match price_elem with
  | None => Ok None
  | Some elem =>
      let price_text := strip (get_text elem) in
      let price_match := re_search price_text in
      match price_match with
      | Some group =>
          v <- float (remove_commas group) ;;
          Ok (Some v)
      | None => Ok None
      end
  end.

Definition extract_price (price_elem : option Tag) : option Q :=
  try_except (extract_price_body price_elem) (fun _ => None).

(** *** scrape_ebay_results *)

(** An item container as the loop reads it: the results of the two
    [select_one] calls. *)
Record Item : Type := mkItem {
  title_elem : option Tag;       (* item.select_one('.s-item__title') *)
  price_elem : option Tag        (* item.select_one('.s-item__price') *)
}.

(** [str(n)] for a natural number. *)
Definition str_of_nat (n : nat) : string :=
  DecimalString.NilEmpty.string_of_uint (Nat.to_uint n).

(** What the code reads of a [requests.Response], and what
    [raise_for_status] reads of it. *)
Record Response : Type := mkResponse {
  status_code : nat;
  reason : string;
  url_of : string;
  text : string
}.

(** [response.raise_for_status()]: an HTTPError, which is a
    [RequestException], for the 4xx and 5xx codes. *)
Definition raise_for_status (r : Response) : exc unit :=
  let message := fun kind =>
    str_of_nat (status_code r) ++ kind ++ reason r ++ " for url: " ++ url_of r in
  if (400 <=? status_code r)%nat && (status_code r <? 500)%nat
  then Raise (RequestException (message " Client Error: "))
  else if (500 <=? status_code r)%nat && (status_code r <? 600)%nat
  then Raise (RequestException (message " Server Error: "))
  else Ok tt.

(** What the run does to the outside: the URLs requested, in order, and the
    number of [time.sleep] calls. *)
Record World : Type := mkWorld {
  requested : list string;
  sleeps : nat
}.

Definition fresh : World := mkWorld [] 0.

Definition max_retries : nat := 3.
Definition page_limit : nat := 60.

(** The per-item loop, with the two accumulators of the source. *)
Fixpoint items_loop (items : list Item) (titles : list string)
    (prices : list (option Q)) : list string * list (option Q) :=
  match items with
  | [] => (titles, prices)
  | item :: rest =>
      match title_elem item with
      | Some te =>
          if negb (contains "Shop on eBay" (get_text te)) then
            let titles := (titles ++ [strip (get_text te)])%list in
            let price := extract_price (price_elem item) in
            let prices := (prices ++ [price])%list in
            items_loop rest titles prices
          else items_loop rest titles prices
      | None => items_loop rest titles prices
      end
  end.

Section Scraper.

(** [BeautifulSoup(markup, 'html.parser').select('.s-item__wrapper')] with
    the two [select_one] results of every container. *)
Variable select_items : string -> list Item.

(** [requests.get]: the outcome of the [n]-th request of the run, for the
    URL it is sent to. *)
Variable requests_get : nat -> string -> exc Response.

(** Lines 65-86: from the response text to the two truncated lists. *)
Definition extract_records (markup : string) : list string * list (option Q) :=
  let items := select_items markup in
  let '(titles, prices) := items_loop items [] [] in
  (firstn page_limit titles, firstn page_limit prices).

Definition with_page_size (url : string) : string :=
  if negb (contains "_ipg=" url)
  then url ++ (if contains "?" url then "&_ipg=60" else "?_ipg=60")
  else url.

(** The body of the [try] of one attempt. *)
Definition attempt_body (attempt : nat) (url : string) (w : World)
    : exc (list string * list (option Q)) * World :=
  let w := if (0 <? attempt)%nat
           then mkWorld (requested w) (S (sleeps w)) else w in
  let reply := requests_get (List.length (requested w)) url in
  let w := mkWorld (requested w ++ [url])%list (sleeps w) in
  (response <- reply ;;
   _ <- raise_for_status response ;;
   Ok (extract_records (text response)), w).

(** [for attempt in range(max_retries)], over the attempts still to run.
    Falling off the end of the loop returns [None]. *)
Fixpoint attempts_loop (attempts : list nat) (url : string) (w : World)
    : exc (option (list string * list (option Q))) * World :=
  match attempts with
  | [] => (Ok None, w)
  | attempt :: rest =>
      let url := with_page_size url in
      let '(outcome, w) := attempt_body attempt url w in
      match outcome with
      | Ok result => (Ok (Some result), w)
      | Raise (RequestException e) =>
          if (attempt =? max_retries - 1)%nat
          then (Raise (Exception ("Failed to fetch eBay results after "
                                  ++ str_of_nat max_retries
                                  ++ " attempts: " ++ e)), w)
          else attempts_loop rest url w
      | Raise e =>
          (Raise (Exception ("Error processing eBay page: "
                             ++ str_of_exception e)), w)
      end
  end.

Definition scrape_ebay_results (url : string)
    : exc (option (list string * list (option Q))) * World :=
  attempts_loop (seq 0 max_retries) url fresh.

End Scraper.

(** ** text_analyzer.py *)

(** *** Sets of strings, and dictionaries in insertion order *)

Definition mem (x : string) (s : list string) : bool :=
  existsb (String.eqb x) s.

Definition dict : Type := list (string * Z).

Fixpoint dict_get (d : dict) (k : string) (default : Z) : Z :=
  match d with
  | [] => default
  | (k', v) :: d' => if String.eqb k k' then v else dict_get d' k default
  end.

(** [d[k] = v]: an existing key keeps its position, a new one goes last. *)
Fixpoint dict_set (d : dict) (k : string) (v : Z) : dict :=
  match d with
  | [] => [(k, v)]
  | (k', v') :: d' =>
      if String.eqb k k' then (k', v) :: d' else (k', v') :: dict_set d' k v
  end.

(** [dict(pairs)] *)
Definition dict_of (pairs : list (string * Z)) : dict :=
  fold_left (fun d kv => dict_set d (fst kv) (snd kv)) pairs [].

(** [d.items()] *)
Definition items (d : dict) : list (string * Z) := d.

(** [Counter(tokens)] *)
Definition Counter (tokens : list string) : dict :=
  fold_left (fun d t => dict_set d t (dict_get d t 0 + 1)%Z) tokens [].

(** [sorted(l, key=lambda x: x[1], reverse=True)]: the sort is stable, so of
    two entries with the same count the one that came first stays first. *)
Fixpoint insert_desc (x : string * Z) (l : list (string * Z)) : list (string * Z) :=
  match l with
  | [] => [x]
  | y :: l' => if (snd y <=? snd x)%Z then x :: l else y :: insert_desc x l'
  end.

Fixpoint sorted_desc (l : list (string * Z)) : list (string * Z) :=
  match l with
  | [] => []
  | x :: l' => insert_desc x (sorted_desc l')
  end.

(** *** preprocess_text and analyze_keywords *)

Definition basic_stopwords : list string :=
  ["a"; "an"; "and"; "are"; "as"; "at"; "be"; "by"; "for";
   "from"; "has"; "he"; "in"; "is"; "it"; "its"; "of"; "on";
   "that"; "the"; "to"; "was"; "were"; "will"; "with"].

Definition custom_stopwords : list string :=
  ["new"; "brand"; "lot"; "free"; "shipping"; "sale"; "sealed";
   "uk"; "us"; "box"; "set"; "edition"; "complete"; "original"].

Section Tokenizer.

(** [nltk.tokenize.word_tokenize] *)
Variable word_tokenize : string -> exc (list string).

(** [nltk.corpus.stopwords.words] *)
Variable stopwords_words : string -> exc (list string).

(** The stopword set in force: the corpus list, or the basic list when the
    corpus cannot be read, updated with the custom list. *)
Definition stop_words : list string :=
  let stop_words :=
    try_except (stopwords_words "english") (fun _ => basic_stopwords) in
  (stop_words ++ custom_stopwords)%list.

Definition keep_token (token : string) : bool :=
  isalpha token && (2 <? len token)%Z && negb (mem token stop_words).

Definition preprocess_text_body (text : string) : exc (list string) :=
  let text := lower text in
  let text := filter_string (fun c => negb (is_punctuation c)) text in
  let tokens := try_except (word_tokenize text) (fun _ => str_split text) in
  let tokens := filter keep_token tokens in
  Ok tokens.

Definition preprocess_text (text : string) : list string :=
  try_except (preprocess_text_body text) (fun _ => []).

Definition analyze_keywords_body (titles : list string) : exc dict :=
  let all_text := join " " titles in
  let tokens := preprocess_text all_text in
  let keyword_freq := Counter tokens in
  Ok (dict_of (sorted_desc (items keyword_freq))).

Definition analyze_keywords (titles : list string) : dict :=
  try_except (analyze_keywords_body titles) (fun _ => []).

End Tokenizer.

(** *** suggest_title *)

Definition default_max_length : Z := 80.

Definition fallback_title : string := "Could not generate title suggestion".

Definition common_suffixes : list string := [" - New"; " - Lot"; " - Sale"].

Definition nonempty {A : Type} (l : list A) : bool :=
  match l with
  | [] => false
  | _ => true
  end.

(** The keyword loop, with its two accumulators; the [else] branch is the
    [break]. *)
Fixpoint keywords_loop (max_length : Z) (sorted_keywords : list (string * Z))
    (title_parts : list string) (current_length : Z) : list string * Z :=
  match sorted_keywords with
  | [] => (title_parts, current_length)
  | (keyword, freq) :: rest =>
      let word_length := len keyword in
      let space_needed := if nonempty title_parts then 1 else 0 in
      let comma_needed := if nonempty title_parts then 1 else 0 in
      let total_addition := word_length + space_needed + comma_needed in
      if current_length + total_addition <=? max_length then
        let '(title_parts, current_length) :=
          if nonempty title_parts
          then ((title_parts ++ [", "])%list, current_length + 2)
          else (title_parts, current_length) in
        keywords_loop max_length rest
          (title_parts ++ [title keyword])%list (current_length + word_length)
      else (title_parts, current_length)
  end%Z.

(** The suffix loop: the first suffix that fits is appended, then [break]. *)
Fixpoint suffix_loop (max_length : Z) (suffixes : list string) (title : string)
    : string :=
  match suffixes with
  | [] => title
  | suffix :: rest =>
      if (len title + len suffix <=? max_length)%Z then title ++ suffix
      else suffix_loop max_length rest title
  end.

(** Lines 96-125: the title built from the keywords alone. *)
Definition keyword_title (keyword_freq : dict) (max_length : Z) : string :=
  let top_keywords := firstn 10 (items keyword_freq) in
  let sorted_keywords := sorted_desc top_keywords in
  let '(title_parts, _) := keywords_loop max_length sorted_keywords [] 0%Z in
  join "" title_parts.

Definition suggest_title_body (keyword_freq : dict) (max_length : Z) : exc string :=
  let title := keyword_title keyword_freq max_length in
  let title :=
    if (len title <? max_length - 15)%Z
    then suffix_loop max_length common_suffixes title
    else title in
  Ok title.

Definition suggest_title (keyword_freq : dict) (max_length : Z) : string :=
  try_except (suggest_title_body keyword_freq max_length)
             (fun _ => fallback_title).

(** *** calculate_price_stats *)

Record PriceStats : Type := mkStats {
  average : Q;
  median_price : Q;
  min_price : Q;
  max_price : Q
}.

Definition zero_stats : PriceStats := mkStats 0 0 0 0.

Definition sum (data : list Q) : Q := fold_left Qplus data 0%Q.

(** [statistics.mean] *)
Definition mean (data : list Q) : exc Q :=
  match data with
  | [] => Raise (ValueError "mean requires at least one data point")
  | _ => Ok (sum data / inject_Z (Z.of_nat (List.length data)))%Q
  end.

(** [sorted(data)] on numbers, ascending and stable. *)
Fixpoint insert_asc (x : Q) (l : list Q) : list Q :=
  match l with
  | [] => [x]
  | y :: l' => if Qle_bool x y then x :: l else y :: insert_asc x l'
  end.

Fixpoint sorted_asc (l : list Q) : list Q :=
  match l with
  | [] => []
  | x :: l' => insert_asc x (sorted_asc l')
  end.

(** [statistics.median] *)
Definition median (data : list Q) : exc Q :=
  let data := sorted_asc data in
  let n := List.length data in
  if (n =? 0)%nat then Raise (ValueError "no median for empty data")
  else if (n mod 2 =? 1)%nat then Ok (nth (n / 2) data 0%Q)
  else
    let i := (n / 2)%nat in
    Ok ((nth (i - 1) data 0 + nth i data 0) / 2)%Q.

(** The builtins [min] and [max]: the first least, or greatest, element. *)
Definition py_min (data : list Q) : exc Q :=
  match data with
  | [] => Raise (ValueError "min() arg is an empty sequence")
  | x :: rest => Ok (fold_left (fun m y => if Qlt_le_dec y m then y else m) rest x)
  end.

Definition py_max (data : list Q) : exc Q :=
  match data with
  | [] => Raise (ValueError "max() arg is an empty sequence")
  | x :: rest => Ok (fold_left (fun m y => if Qlt_le_dec m y then y else m) rest x)
  end.

(** Rounding to the nearest integer, ties to even. *)
Definition round_half_even (x : Q) : Z :=
  let n := Qnum x in
  let d := Zpos (Qden x) in
  let fl := (n / d)%Z in
  let r2 := (2 * (n mod d))%Z in
  if (r2 <? d)%Z then fl
  else if (d <? r2)%Z then (fl + 1)%Z
  else if Z.even fl then fl else (fl + 1)%Z.

(** [round(x, 2)] of the exact value [x]: the nearest hundredth, the even one
    at a tie.  (At a tie of the exact value the float that the code rounds
    lies on one side or the other; see [is_rounded2].) *)
Definition round2 (x : Q) : Q :=
  Qred (round_half_even (x * 100) # 100).

Definition valid_prices (prices : list (option Q)) : list Q :=
  flat_map (fun p => match p with Some v => [v] | None => [] end) prices.

Definition calculate_price_stats_body (prices : list (option Q)) : exc PriceStats :=
  let valid_prices := valid_prices prices in
  if negb (nonempty valid_prices) then Ok zero_stats
  else
    a <- mean valid_prices ;;
    m <- median valid_prices ;;
    lo <- py_min valid_prices ;;
    hi <- py_max valid_prices ;;
    Ok (mkStats (round2 a) (round2 m) (round2 lo) (round2 hi)).

Definition calculate_price_stats (prices : list (option Q)) : PriceStats :=
  try_except (calculate_price_stats_body prices) (fun _ => zero_stats).


(** ** main.py *)

(** *** Regular expressions, as [re.match] runs them *)

Inductive regex : Type :=
| Lit (p : string)            (* the characters of [p], one after the other *)
| Opt (r : regex)             (* [r?] *)
| Alt (r1 r2 : regex)         (* [r1|r2] *)
| Seq (r1 r2 : regex)         (* [r1 r2] *)
| AnyStar.                    (* [.*] *)

Fixpoint strip_prefix (p s : string) : option string :=
  match p with
  | EmptyString => Some s
  | String a p' =>
      match s with
      | String b s' => if Ascii.eqb a b then strip_prefix p' s' else None
      | EmptyString => None
      end
  end.

Definition newline : ascii := ascii_of_nat 10.

(** [.*] followed by [k]: the dot takes any character but a newline; the
    longest run is tried first, then the shorter ones. *)
Fixpoint any_star (s : string) (k : string -> bool) : bool :=
  match s with
  | String c s' =>
      if Ascii.eqb c newline then k s else any_star s' k || k s
  | EmptyString => k s
  end.

(** A backtracking matcher: [re_match r s k] matches [r] at the head of [s]
    and hands what is left to [k]; the alternatives are tried in the order of
    the regular expression engine. *)
Fixpoint re_match (r : regex) (s : string) (k : string -> bool) : bool :=
  match r with
  | Lit p =>
      match strip_prefix p s with
      | Some rest => k rest
      | None => false
      end
  | Opt r' => re_match r' s k || k s
  | Alt r1 r2 => re_match r1 s k || re_match r2 s k
  | Seq r1 r2 => re_match r1 s (fun rest => re_match r2 rest k)
  | AnyStar => any_star s k
  end.

(** [https?://(www\.)?ebay\.(com|co\.uk|de|fr|au)/.*] *)
Definition ebay_pattern : regex :=
  Seq (Lit "http") (Seq (Opt (Lit "s")) (Seq (Lit "://")
  (Seq (Opt (Lit "www.")) (Seq (Lit "ebay.")
  (Seq (Alt (Lit "com") (Alt (Lit "co.uk") (Alt (Lit "de") (Alt (Lit "fr") (Lit "au")))))
  (Seq (Lit "/") AnyStar)))))).

(** [bool(re.match(ebay_pattern, url))] *)
Definition is_valid_ebay_url (url : string) : bool :=
  re_match ebay_pattern url (fun _ => true).

(** *** main *)

(** What the page shows below its header.  The widgets are not modelled one by
    one: a page is the message shown, or the values handed to the widgets. *)
Record Results : Type := mkResults {
  found_message : string;                  (* st.success *)
  raw_titles : list string;                (* st.text, one numbered line each *)
  suggested_title : string;                (* st.info *)
  price_stats : PriceStats;                (* the four st.metric *)
  frequency_table : list (string * Z);     (* st.dataframe *)
  chart_data : list (string * Z)           (* st.bar_chart *)
}.

Inductive Page : Type :=
| Idle                          (* nothing below the header *)
| ShowError (msg : string)      (* st.error *)
| ShowWarning (msg : string)    (* st.warning *)
| ShowResults (r : Results).

Fixpoint enumerate (start : nat) (l : list string) : list string :=
  match l with
  | [] => []
  | x :: l' => (str_of_nat start ++ ". " ++ x) :: enumerate (S start) l'
  end.

Section Main.

Variable select_items : string -> list Item.
Variable requests_get : nat -> string -> exc Response.
Variable word_tokenize : string -> exc (list string).
Variable stopwords_words : string -> exc (list string).

(** [pd.DataFrame(...).sort_values('Frequency', ascending=False)] *)
Variable sort_values : list (string * Z) -> list (string * Z).

(** The body of the [try]; [url] is the text of the input field. *)
Definition main_try (url : string) : exc Page * World :=
  let '(outcome, w) := scrape_ebay_results select_items requests_get url in
  (scraped <- outcome ;;
   match scraped with
   | None => Raise (Exception "cannot unpack non-iterable NoneType object")
   | Some (titles, prices) =>
       if negb (nonempty titles)
       then Ok (ShowWarning "No results found. Please try a different search.")
       else
         let keyword_freq := analyze_keywords word_tokenize stopwords_words titles in
         let price_stats := calculate_price_stats prices in
         let suggested_title := suggest_title keyword_freq default_max_length in
         let df := sort_values (items keyword_freq) in
         Ok (ShowResults
               (mkResults
                  ("Found " ++ str_of_nat (List.length titles) ++ " items!")
                  (enumerate 1 titles) suggested_title price_stats
                  df (firstn 30 df)))
   end, w).

Definition main (url : string) : Page * World :=
  if negb (String.eqb url "") then
    if negb (is_valid_ebay_url url)
    then (ShowError "Please enter a valid eBay search URL", fresh)
    else
      let '(page, w) := main_try url in
      (try_except page
         (fun e => ShowError ("An error occurred: " ++ str_of_exception e)), w)
  else (Idle, fresh).

End Main.
(** ** Notions used to state the properties *)

(** The text [".d1d2"]. *)
Definition cents_text (d1 d2 : ascii) : string :=
  String "." (String d1 (String d2 EmptyString)).

(** [m] is a price: a non-empty run of digits and commas, a point, two
    digits. *)
Definition price_pattern (m : string) : Prop :=
  exists run d1 d2,
    m = run ++ cents_text d1 d2 /\ run <> "" /\
    forall_string digit_or_comma run = true /\
    is_digit d1 = true /\ is_digit d2 = true.

Definition digit_val (c : ascii) : N := (code c - 48)%N.

(** [v] is the number that the price [m] denotes once its commas are
    dropped: the digits before the point as an integer, plus the hundredths. *)
Definition pattern_value (m : string) (v : Q) : Prop :=
  exists run d1 d2 i,
    m = run ++ cents_text d1 d2 /\
    digits_value 0 (remove_commas run) = Some i /\
    (v == inject_Z (Z.of_N i) + (Z.of_N (10 * digit_val d1 + digit_val d2) # 100))%Q.

(** [m] occurs in [s] after the prefix [pre]. *)
Definition occurs_at (pre m s : string) : Prop :=
  exists post, s = pre ++ m ++ post.

(** No price occurs in [s]. *)
Definition no_price (s : string) : Prop :=
  forall pre m, occurs_at pre m s -> ~ price_pattern m.


(** An item yields a record when it has a title that is not the placeholder. *)
Definition is_product (it : Item) : bool :=
  match title_elem it with
  | Some te => negb (contains "Shop on eBay" (get_text te))
  | None => false
  end.

Definition record_title (it : Item) : string :=
  match title_elem it with
  | Some te => strip (get_text te)
  | None => ""
  end.

Definition record_price (it : Item) : option Q := extract_price (price_elem it).

(** The items behind the returned records: the products among the matched
    containers, in document order, cut at the page limit. *)
Definition kept_items (items : list Item) : list Item :=
  firstn page_limit (filter is_product items).

(** One request seen from the retry loop: the markup, or the exception of
    [requests.get] or of [raise_for_status]. *)
Definition fetch (reply : exc Response) : exc string :=
  response <- reply ;;
  _ <- raise_for_status response ;;
  Ok (text response).

(** The outside after one more attempt at [u]: one more request, and a sleep
    before it on a retry. *)
Definition after_attempt (attempt : nat) (u : string) (w : World) : World :=
  mkWorld (requested w ++ [u])%list
          (if (0 <? attempt)%nat then S (sleeps w) else sleeps w).

(** ASCII text: every character is below 128. *)
Definition is_ascii_text (s : string) : bool :=
  forall_string (fun c => (code c <? 128)%N) s.

(** The first [n] keywords of a ranking, title-cased and joined by ", ". *)
Definition titled_prefix (n : nat) (keywords : list (string * Z)) : string :=
  join ", " (map (fun kw => title (fst kw)) (firstn n keywords)).

(** A keyword of 65 letters. *)
Definition long_keyword : string :=
  "abcdefghijklmnopqrstuvwxyzabcdefghijklmnopqrstuvwxyzabcdefghijklm".

(** The distinct tokens, in the order of their first appearance. *)
Fixpoint first_appearances (tokens : list string) : list string :=
  match tokens with
  | [] => []
  | t :: rest =>
      t :: filter (fun x => negb (String.eqb x t)) (first_appearances rest)
  end.

(** How often [k] occurs among the tokens. *)
Definition occurrences (k : string) (tokens : list string) : Z :=
  Z.of_nat (count_occ string_dec tokens k).

(** Later entries never have a larger count. *)
Definition descending (ranking : list (string * Z)) : Prop :=
  StronglySorted (fun a b => (snd b <= snd a)%Z) ranking.

(** The keys of the entries whose count is [c], in ranking order. *)
Definition keys_with_count (c : Z) (ranking : list (string * Z)) : list string :=
  map fst (filter (fun kv => (snd kv =? c)%Z) ranking).

(** The entries [(k, f k)] for the keys [ks]. *)
Definition tabulate (f : string -> Z) (ks : list string) : dict :=
  map (fun k => (k, f k)) ks.

(** [y] is [x] rounded to 2 fractional digits: a whole number of hundredths
    that is no further than half a hundredth from [x]. *)
Definition is_rounded2 (x y : Q) : Prop :=
  (exists k : Z, (y == k # 100)%Q) /\
  (x - (1 # 200) <= y)%Q /\ (y <= x + (1 # 200))%Q.

Definition is_mean (data : list Q) (a : Q) : Prop :=
  (a * inject_Z (Z.of_nat (List.length data)) == sum data)%Q.

(** The middle value of the data in ascending order, or for an even count
    the average of the two middle values. *)
Definition is_median (data : list Q) (m : Q) : Prop :=
  exists s,
    Permutation s data /\ StronglySorted Qle s /\
    let n := List.length s in
    m = if Nat.even n
        then ((nth (n / 2 - 1) s 0 + nth (n / 2) s 0) / 2)%Q
        else nth (n / 2) s 0%Q.

Definition is_min (data : list Q) (lo : Q) : Prop :=
  In lo data /\ forall x, In x data -> (lo <= x)%Q.

Definition is_max (data : list Q) (hi : Q) : Prop :=
  In hi data /\ forall x, In x data -> (x <= hi)%Q.

Definition is_some {A : Type} (o : option A) : bool :=
  match o with
  | Some _ => true
  | None => false
  end.

(** ** Notions used by the further properties *)

(** [s] does not begin with white space. *)
Definition clean_head (s : string) : Prop :=
  match s with
  | String c _ => is_space c = false
  | EmptyString => True
  end.

(** The text that is tokenized: lower-cased, punctuation removed. *)
Definition cleaned (text : string) : string :=
  filter_string (fun c => negb (is_punctuation c)) (lower text).

(** The sum of the counts of a ranking. *)
Definition total_count (ranking : list (string * Z)) : Z :=
  fold_right (fun kv acc => (snd kv + acc)%Z) 0%Z ranking.

(** The texts that a regular expression matches. *)
Fixpoint lang (r : regex) (m : string) : Prop :=
  match r with
  | Lit p => m = p
  | Opt r' => lang r' m \/ m = ""
  | Alt r1 r2 => lang r1 m \/ lang r2 m
  | Seq r1 r2 => exists m1 m2, m = m1 ++ m2 /\ lang r1 m1 /\ lang r2 m2
  | AnyStar => forall_string (fun c => negb (Ascii.eqb c newline)) m = true
  end.
(** ** Strings *)

Lemma append_nil_r (s : string) : s ++ "" = s.
Proof. induction s as [|c s IH]; simpl; [reflexivity | now rewrite IH]. Qed.

Lemma append_assoc (a b c : string) : (a ++ b) ++ c = a ++ b ++ c.
Proof. induction a as [|x a IH]; simpl; [reflexivity | now rewrite IH]. Qed.

Lemma length_append (a b : string) :
  String.length (a ++ b) = (String.length a + String.length b)%nat.
Proof. induction a as [|x a IH]; simpl; [reflexivity | now rewrite IH]. Qed.

Lemma len_append (a b : string) : len (a ++ b) = (len a + len b)%Z.
Proof. unfold len. rewrite length_append. lia. Qed.

Lemma len_nonneg (s : string) : (0 <= len s)%Z.
Proof. unfold len. lia. Qed.

Lemma space_not_pattern_char (c : ascii) :
  is_space c = true -> digit_or_comma c = false.
Proof.
  unfold is_space, digit_or_comma, is_digit, in_range.
  destruct (Ascii.eqb_spec c ","%char) as [->|_]; [vm_compute; discriminate|].
  intros H. rewrite orb_false_r.
  apply andb_false_iff.
  rewrite !orb_true_iff, !andb_true_iff, !N.leb_le in H.
  rewrite !N.leb_gt. lia.
Qed.

Lemma space_not_digit (c : ascii) : is_space c = true -> is_digit c = false.
Proof.
  intros H. apply space_not_pattern_char in H.
  unfold digit_or_comma in H. now apply orb_false_iff in H.
Qed.

Lemma space_not_point (c : ascii) : is_space c = true -> Ascii.eqb c "." = false.
Proof.
  destruct (Ascii.eqb_spec c "."%char) as [->|_]; [vm_compute; discriminate|reflexivity].
Qed.

Lemma point_not_pattern_char : digit_or_comma "." = false.
Proof. reflexivity. Qed.

(** ** The search finds the leftmost price *)

Lemma match_cents_spec (s t : string) :
  match_cents s = Some t ->
  exists d1 d2 post,
    s = cents_text d1 d2 ++ post /\ t = cents_text d1 d2 /\
    is_digit d1 = true /\ is_digit d2 = true.
Proof.
  destruct s as [|d [|d1 [|d2 post]]]; simpl; try discriminate.
  destruct (Ascii.eqb_spec d "."%char) as [->|_]; simpl; [|discriminate].
  destruct (is_digit d1) eqn:E1; simpl; [|discriminate].
  destruct (is_digit d2) eqn:E2; simpl; [|discriminate].
  intros [= <-]. now exists d1, d2, post.
Qed.

Lemma match_cents_complete (d1 d2 : ascii) (post : string) :
  is_digit d1 = true -> is_digit d2 = true ->
  match_cents (cents_text d1 d2 ++ post) = Some (cents_text d1 d2).
Proof. intros H1 H2. simpl. now rewrite H1, H2. Qed.

Lemma match_here_sound (s m : string) :
  match_here s = Some m ->
  price_pattern m /\ exists post, s = m ++ post.
Proof.
  revert m. induction s as [|c s IH]; simpl; [discriminate|].
  intros m. destruct (digit_or_comma c) eqn:Ec; [|discriminate].
  destruct (match_here s) as [m'|] eqn:Em.
  - intros [= <-]. destruct (IH m' eq_refl) as [(run & d1 & d2 & -> & _ & Hr & H1 & H2) [post ->]].
    split.
    + exists (String c run), d1, d2. simpl. rewrite Ec, Hr. repeat split; auto. discriminate.
    + exists post. reflexivity.
  - destruct (match_cents s) as [t|] eqn:Et; [|discriminate].
    intros [= <-]. destruct (match_cents_spec _ _ Et) as (d1 & d2 & post & -> & -> & H1 & H2).
    split.
    + exists (String c ""), d1, d2. simpl. rewrite Ec. repeat split; auto. discriminate.
    + exists post. reflexivity.
Qed.

Lemma match_here_complete (run : string) (d1 d2 : ascii) (post : string) :
  run <> "" -> forall_string digit_or_comma run = true ->
  is_digit d1 = true -> is_digit d2 = true ->
  match_here (run ++ cents_text d1 d2 ++ post) = Some (run ++ cents_text d1 d2).
Proof.
  intros Hne Hr H1 H2. induction run as [|c run IH]; [congruence|].
  simpl in Hr. apply andb_true_iff in Hr as [Hc Hr].
  cbn [append match_here]. rewrite Hc.
  destruct run as [|c' run].
  - cbn [append]. change (match_here (cents_text d1 d2 ++ post)) with (@None string).
    now rewrite match_cents_complete.
  - rewrite IH; [reflexivity | discriminate | assumption].
Qed.

Lemma match_here_pattern (m post : string) :
  price_pattern m -> match_here (m ++ post) = Some m.
Proof.
  intros (run & d1 & d2 & -> & Hne & Hr & H1 & H2).
  rewrite append_assoc. now apply match_here_complete.
Qed.

Lemma re_search_leftmost (s m : string) :
  re_search s = Some m ->
  exists pre,
    occurs_at pre m s /\ price_pattern m /\
    forall pre' m', occurs_at pre' m' s -> price_pattern m' ->
      (String.length pre <= String.length pre')%nat /\
      (String.length pre' = String.length pre -> m' = m).
Proof.
  revert m. induction s as [|c s IH]; [discriminate|].
  intros m. cbn [re_search]. destruct (match_here (String c s)) as [m0|] eqn:Eh.
  - intros [= <-]. destruct (match_here_sound _ _ Eh) as [Hp [post Hs]].
    exists "". split; [now exists post|]. split; [assumption|].
    intros pre' m' [post' Hs'] Hp'. split; [simpl; lia|].
    destruct pre'; [|discriminate]. intros _. simpl in Hs'.
    rewrite Hs', (match_here_pattern _ _ Hp') in Eh. congruence.
  - intros Hr. destruct (IH _ Hr) as (pre & [post Hs] & Hp & Hleft).
    exists (String c pre). split; [exists post; simpl; now rewrite Hs|].
    split; [assumption|].
    intros pre' m' [post' Hs'] Hp'. destruct pre' as [|c' pre'].
    + simpl in Hs'. rewrite Hs', (match_here_pattern _ _ Hp') in Eh. discriminate.
    + simpl in Hs'. injection Hs' as _ Hs'.
      destruct (Hleft pre' m' (ex_intro _ post' Hs') Hp') as [Hle Heq].
      split; [simpl; lia|]. simpl. intros Hl. apply Heq. lia.
Qed.

Lemma re_search_complete (s pre m : string) :
  occurs_at pre m s -> price_pattern m -> re_search s <> None.
Proof.
  intros [post ->] Hp. induction pre as [|c pre IH].
  - simpl. destruct m as [|c m].
    + destruct Hp as (run & d1 & d2 & Hm & _). destruct run; discriminate.
    + cbn [append re_search].
      change (String c (m ++ post)) with (String c m ++ post).
      rewrite (match_here_pattern _ _ Hp). discriminate.
  - cbn [append re_search]. destruct (match_here _); [discriminate | exact IH].
Qed.

Lemma re_search_none (s : string) : re_search s = None -> no_price s.
Proof.
  intros Hn pre m Ho Hp. now apply (re_search_complete _ _ _ Ho Hp).
Qed.

(** ** Stripping does not change what the search finds *)

Lemma all_space_match_cents (t : string) :
  forall_string is_space t = true -> match_cents t = None.
Proof.
  destruct t as [|x [|y [|z t]]]; simpl; try reflexivity.
  intros H. apply andb_true_iff in H as [Hx _].
  now rewrite (space_not_point _ Hx).
Qed.

Lemma all_space_match_here (t : string) :
  forall_string is_space t = true -> match_here t = None.
Proof.
  destruct t as [|x t]; simpl; [reflexivity|].
  intros H. apply andb_true_iff in H as [Hx _].
  now rewrite (space_not_pattern_char _ Hx).
Qed.

Lemma all_space_re_search (t : string) :
  forall_string is_space t = true -> re_search t = None.
Proof.
  induction t as [|x t IH]; [reflexivity|].
  intros H. cbn [re_search]. rewrite (all_space_match_here _ H).
  simpl in H. apply andb_true_iff in H as [_ H]. auto.
Qed.

Lemma match_cents_app_spaces (r t : string) :
  forall_string is_space t = true -> match_cents (r ++ t) = match_cents r.
Proof.
  intros Ht. destruct r as [|d [|d1 [|d2 r]]]; cbn [append].
  - now apply all_space_match_cents.
  - destruct t as [|y [|z t]]; try reflexivity.
    simpl in Ht. apply andb_true_iff in Ht as [Hy _].
    simpl. rewrite (space_not_digit _ Hy). now rewrite andb_false_r.
  - destruct t as [|z t]; try reflexivity.
    simpl in Ht. apply andb_true_iff in Ht as [Hz _].
    simpl. rewrite (space_not_digit _ Hz). now rewrite andb_false_r.
  - reflexivity.
Qed.

Lemma match_here_app_spaces (r t : string) :
  forall_string is_space t = true -> match_here (r ++ t) = match_here r.
Proof.
  intros Ht. induction r as [|c r IH]; cbn [append].
  - now rewrite all_space_match_here.
  - cbn [match_here]. now rewrite IH, match_cents_app_spaces.
Qed.

Lemma re_search_app_spaces (r t : string) :
  forall_string is_space t = true -> re_search (r ++ t) = re_search r.
Proof.
  intros Ht. induction r as [|c r IH]; cbn [append].
  - now rewrite all_space_re_search.
  - cbn [re_search].
    change (String c (r ++ t)) with (String c r ++ t).
    now rewrite match_here_app_spaces, IH.
Qed.

Lemma rstrip_decomp (s : string) :
  exists t, s = rstrip s ++ t /\ forall_string is_space t = true.
Proof.
  induction s as [|c s (t & Hs & Ht)]; [now exists ""|].
  cbn [rstrip]. destruct (rstrip s) as [|c' r] eqn:Er.
  - simpl in Hs. subst t. destruct (is_space c) eqn:Ec.
    + exists (String c s). simpl. now rewrite Ec.
    + now exists s.
  - exists t. split; [|assumption]. cbn [append]. f_equal. exact Hs.
Qed.

Lemma lstrip_decomp (s : string) :
  exists t, s = t ++ lstrip s /\ forall_string is_space t = true.
Proof.
  induction s as [|c s (t & Hs & Ht)]; [now exists ""|].
  cbn [lstrip]. destruct (is_space c) eqn:Ec.
  - exists (String c t). simpl. now rewrite Ec, <- Hs.
  - now exists "".
Qed.

Lemma re_search_lstrip (s : string) : re_search (lstrip s) = re_search s.
Proof.
  induction s as [|c s IH]; [reflexivity|].
  cbn [lstrip]. destruct (is_space c) eqn:Ec; [|reflexivity].
  cbn [re_search match_here]. now rewrite (space_not_pattern_char _ Ec).
Qed.

Lemma re_search_strip (s : string) : re_search (strip s) = re_search s.
Proof.
  unfold strip. destruct (rstrip_decomp (lstrip s)) as (t & Hs & Ht).
  rewrite <- (re_search_lstrip s). rewrite Hs at 2.
  now rewrite re_search_app_spaces.
Qed.

(** ** The value read from a price *)

Lemma filter_string_app (p : ascii -> bool) (a b : string) :
  filter_string p (a ++ b) = filter_string p a ++ filter_string p b.
Proof.
  induction a as [|c a IH]; simpl; [reflexivity|].
  destruct (p c); simpl; now rewrite IH.
Qed.

Lemma digit_not_comma (c : ascii) : is_digit c = true -> Ascii.eqb c "," = false.
Proof.
  destruct (Ascii.eqb_spec c ","%char) as [->|_]; [vm_compute; discriminate|reflexivity].
Qed.

Lemma digit_not_point (c : ascii) : is_digit c = true -> Ascii.eqb c "." = false.
Proof.
  destruct (Ascii.eqb_spec c "."%char) as [->|_]; [vm_compute; discriminate|reflexivity].
Qed.

Lemma remove_commas_digits (run : string) :
  forall_string digit_or_comma run = true ->
  forall_string is_digit (remove_commas run) = true.
Proof.
  unfold remove_commas.
  induction run as [|c run IH]; cbn [filter_string forall_string]; [reflexivity|].
  intros H. apply andb_true_iff in H as [Hc Hr].
  destruct (Ascii.eqb_spec c ","%char) as [->|Hn]; cbn [negb forall_string]; [auto|].
  unfold digit_or_comma in Hc. apply orb_true_iff in Hc as [Hc|Hc].
  - rewrite Hc. cbn [andb]. auto.
  - apply Ascii.eqb_eq in Hc. contradiction.
Qed.

Lemma remove_commas_cents (d1 d2 : ascii) :
  is_digit d1 = true -> is_digit d2 = true ->
  remove_commas (cents_text d1 d2) = cents_text d1 d2.
Proof.
  intros H1 H2. unfold remove_commas, cents_text. cbn [filter_string].
  rewrite (digit_not_comma _ H1), (digit_not_comma _ H2). reflexivity.
Qed.

Lemma split_point_digits (ds rest : string) :
  forall_string is_digit ds = true ->
  split_point (ds ++ String "." rest) = Some (ds, rest).
Proof.
  induction ds as [|c ds IH]; simpl; [reflexivity|].
  intros H. apply andb_true_iff in H as [Hc Hd].
  now rewrite (digit_not_point _ Hc), (IH Hd).
Qed.

Lemma digits_value_total (ds : string) (acc : N) :
  forall_string is_digit ds = true -> exists i, digits_value acc ds = Some i.
Proof.
  revert acc. induction ds as [|c ds IH]; simpl; intros acc H; [now exists acc|].
  apply andb_true_iff in H as [Hc Hd]. rewrite Hc. auto.
Qed.

Lemma float_of_price (run : string) (d1 d2 : ascii) :
  forall_string digit_or_comma run = true ->
  is_digit d1 = true -> is_digit d2 = true ->
  exists i,
    digits_value 0 (remove_commas run) = Some i /\
    float (remove_commas (run ++ cents_text d1 d2)) =
      Ok (Qred (Z.of_N (i * 100 + (10 * digit_val d1 + digit_val d2)) # 100)).
Proof.
  intros Hr H1 H2.
  pose proof (remove_commas_digits _ Hr) as Hd.
  destruct (digits_value_total _ 0%N Hd) as [i Hi].
  exists i. split; [assumption|].
  unfold remove_commas at 1. rewrite filter_string_app.
  fold (remove_commas run). fold (remove_commas (cents_text d1 d2)).
  rewrite (remove_commas_cents _ _ H1 H2).
  unfold float, cents_text. rewrite (split_point_digits _ _ Hd), Hi.
  cbn [digits_value]. rewrite H1, H2.
  replace ((String.length (remove_commas run) + String.length (String d1 (String d2 "")))%nat =? 0)%nat
    with false by (symmetry; apply Nat.eqb_neq; simpl; lia).
  cbn [String.length]. unfold digit_val.
  replace (10 ^ N.of_nat 2)%N with 100%N by reflexivity.
  replace (N.succ_pos (N.pred 100)) with 100%positive by reflexivity.
  do 3 f_equal. lia.
Qed.

Lemma extract_price_found (elem : Tag) (m : string) :
  re_search (get_text elem) = Some m ->
  exists v, extract_price (Some elem) = Some v /\ pattern_value m v.
Proof.
  intros Hs. unfold extract_price, extract_price_body.
  rewrite re_search_strip, Hs.
  destruct (re_search_leftmost _ _ Hs) as (_ & _ & (run & d1 & d2 & -> & _ & Hr & H1 & H2) & _).
  destruct (float_of_price run d1 d2 Hr H1 H2) as (i & Hi & ->).
  cbn [bind try_except]. eexists. split; [reflexivity|].
  exists run, d1, d2, i. repeat split; auto.
  rewrite Qred_correct. unfold Qeq, Qplus, inject_Z. cbn [Qnum Qden]. lia.
Qed.

Lemma extract_price_not_found (elem : Tag) :
  re_search (get_text elem) = None -> extract_price (Some elem) = None.
Proof.
  intros Hs. unfold extract_price, extract_price_body.
  now rewrite re_search_strip, Hs.
Qed.

(** ** extract_price *)

Lemma extract_price_body_ok (price_elem : option Tag) :
  extract_price_body price_elem = Ok (extract_price price_elem).
Proof.
  unfold extract_price. destruct price_elem as [elem|]; [|reflexivity].
  cbn [extract_price_body].
  destruct (re_search (strip (get_text elem))) as [m|] eqn:Es; [|reflexivity].
  destruct (re_search_leftmost _ _ Es) as (_ & _ & (run & d1 & d2 & -> & _ & Hr & H1 & H2) & _).
  destruct (float_of_price run d1 d2 Hr H1 H2) as (i & _ & ->).
  reflexivity.
Qed.

(** C7: [extract_price] never raises (its guarded body itself always returns);
    a missing element or a text without a price gives the absent marker
    [None]; a text that contains a price gives the number of a price of that
    text with its commas dropped; "$12,345.67" gives 12345.67 and
    "Free shipping" gives [None]. *)
Theorem extract_price_degrades_to_absent :
  (forall price_elem, exists r, extract_price_body price_elem = Ok r) /\
  extract_price None = None /\
  (forall elem, no_price (get_text elem) -> extract_price (Some elem) = None) /\
  (forall elem pre m,
      occurs_at pre m (get_text elem) -> price_pattern m ->
      exists pre' m' v,
        occurs_at pre' m' (get_text elem) /\ price_pattern m' /\
        pattern_value m' v /\ extract_price (Some elem) = Some v) /\
  extract_price (Some (mkTag "$12,345.67")) = Some (1234567 # 100) /\
  extract_price (Some (mkTag "Free shipping")) = None.
Proof.
  split; [|split; [|split; [|split; [|split]]]].
  - intros e. eexists. apply extract_price_body_ok.
  - reflexivity.
  - intros elem Hno. apply extract_price_not_found.
    destruct (re_search (get_text elem)) as [m|] eqn:Es; [|reflexivity].
    destruct (re_search_leftmost _ _ Es) as (pre & Ho & Hp & _).
    now destruct (Hno pre m Ho Hp).
  - intros elem pre m Ho Hp.
    destruct (re_search (get_text elem)) as [m'|] eqn:Es.
    + destruct (re_search_leftmost _ _ Es) as (pre' & Ho' & Hp' & _).
      destruct (extract_price_found _ _ Es) as (v & Hv & Hval).
      now exists pre', m', v.
    + now destruct (re_search_complete _ _ _ Ho Hp).
  - reflexivity.
  - reflexivity.
Qed.

Lemma extract_price_degrades_to_absent_witness :
  exists pre' m' v,
    occurs_at pre' m' "US $1,234.50 each" /\ price_pattern m' /\
    pattern_value m' v /\
    extract_price (Some (mkTag "US $1,234.50 each")) = Some v.
Proof.
  apply (proj1 (proj2 (proj2 (proj2 extract_price_degrades_to_absent)))
           (mkTag "US $1,234.50 each") "US $" "1,234.50").
  - exists " each". reflexivity.
  - exists "1,234", "5"%char, "0"%char. repeat split; try reflexivity. discriminate.
Defined.



(** ** The per-item loop *)

Lemma items_loop_spec (its : list Item) (titles : list string)
    (prices : list (option Q)) :
  items_loop its titles prices =
    ((titles ++ map record_title (filter is_product its))%list,
     (prices ++ map record_price (filter is_product its))%list).
Proof.
  revert titles prices. induction its as [|it its IH]; intros titles prices.
  - simpl. now rewrite !app_nil_r.
  - cbn [items_loop filter].
    assert (Hp : is_product it =
                 match title_elem it with
                 | Some te => negb (contains "Shop on eBay" (get_text te))
                 | None => false
                 end) by reflexivity.
    assert (Ht : record_title it =
                 match title_elem it with
                 | Some te => strip (get_text te)
                 | None => ""
                 end) by reflexivity.
    destruct (title_elem it) as [te|]; rewrite Hp; [|apply IH].
    destruct (contains "Shop on eBay" (get_text te)); cbn [negb]; [apply IH|].
    rewrite IH. cbn [map]. rewrite Ht. unfold record_price at 2.
    now rewrite <- !app_assoc.
Qed.

Section ScraperFacts.

Variable select_items : string -> list Item.
Variable requests_get : nat -> string -> exc Response.

Lemma extract_records_spec (markup : string) :
  extract_records select_items markup =
    (map record_title (kept_items (select_items markup)),
     map record_price (kept_items (select_items markup))).
Proof.
  unfold extract_records, kept_items. rewrite items_loop_spec.
  cbn [app]. now rewrite !firstn_map.
Qed.

(** ** The retry loop *)

Lemma contains_app_r (sub a b : string) :
  contains sub b = true -> contains sub (a ++ b) = true.
Proof.
  intros Hb. induction a as [|c a IH]; [assumption|].
  cbn [append contains]. rewrite IH. now destruct (String.prefix _ _).
Qed.

Lemma with_page_size_has_param (url : string) :
  contains "_ipg=" (with_page_size url) = true.
Proof.
  unfold with_page_size. destruct (contains "_ipg=" url) eqn:E; cbn [negb]; [assumption|].
  apply contains_app_r. now destruct (contains "?" url).
Qed.

Lemma with_page_size_idem (url : string) :
  with_page_size (with_page_size url) = with_page_size url.
Proof.
  unfold with_page_size at 1. now rewrite with_page_size_has_param.
Qed.

Lemma attempts_loop_step (attempt : nat) (rest : list nat) (url : string)
    (w : World) :
  attempts_loop select_items requests_get (attempt :: rest) url w =
    let u := with_page_size url in
    let w' := after_attempt attempt u w in
    match fetch (requests_get (List.length (requested w)) u) with
    | Ok markup => (Ok (Some (extract_records select_items markup)), w')
    | Raise (RequestException e) =>
        if (attempt =? max_retries - 1)%nat
        then (Raise (Exception ("Failed to fetch eBay results after "
                                ++ str_of_nat max_retries
                                ++ " attempts: " ++ e)), w')
        else attempts_loop select_items requests_get rest u w'
    | Raise e =>
        (Raise (Exception ("Error processing eBay page: "
                           ++ str_of_exception e)), w')
    end.
Proof.
  cbn [attempts_loop]. unfold attempt_body, after_attempt, fetch.
  destruct (0 <? attempt)%nat; cbn [requested sleeps];
    destruct (requests_get _ _) as [resp|e]; cbn [bind];
    try destruct (raise_for_status resp) as [[]|e]; cbn [bind];
    try destruct e; reflexivity.
Qed.

Lemma attempts_loop_requests (attempts : list nat) (url : string) (w : World) :
  (List.length (requested (snd (attempts_loop select_items requests_get attempts url w)))
   <= List.length (requested w) + List.length attempts)%nat.
Proof.
  revert url w. induction attempts as [|a rest IH]; intros url w.
  - simpl. lia.
  - rewrite attempts_loop_step. cbv zeta.
    assert (Hw : List.length (requested (after_attempt a (with_page_size url) w))
                 = S (List.length (requested w))).
    { unfold after_attempt. cbn [requested]. rewrite length_app. simpl. lia. }
    destruct (fetch _) as [markup|[e|e|e|e]]; cbn [snd List.length];
      try (rewrite Hw; lia).
    destruct (a =? max_retries - 1)%nat; cbn [snd]; [rewrite Hw; lia|].
    specialize (IH (with_page_size url) (after_attempt a (with_page_size url) w)).
    rewrite Hw in IH. lia.
Qed.

Lemma attempts_loop_result (attempts : list nat) (url : string) (w : World)
    (r : list string * list (option Q)) :
  fst (attempts_loop select_items requests_get attempts url w) = Ok (Some r) ->
  exists markup, r = extract_records select_items markup.
Proof.
  revert url w. induction attempts as [|a rest IH]; intros url w.
  - simpl. discriminate.
  - rewrite attempts_loop_step. cbv zeta.
    destruct (fetch _) as [markup|[e|e|e|e]]; cbn [fst]; try discriminate.
    + intros [= <-]. now exists markup.
    + destruct (a =? max_retries - 1)%nat; cbn [fst]; [discriminate|apply IH].
Qed.

End ScraperFacts.

(** C2: the two lists returned by the extraction step have the same length
    and are aligned: both are read off one list of items (the products among
    the matched containers, in document order, at most 60 of them), the
    titles as the stripped title texts and the prices as the extracted prices,
    [None] where there is none.  The same holds of whatever
    [scrape_ebay_results] returns. *)
Theorem titles_and_prices_aligned
    (select_items : string -> list Item)
    (requests_get : nat -> string -> exc Response) (url markup : string) :
  (let '(titles, prices) := extract_records select_items markup in
   List.length titles = List.length prices /\
   titles = map record_title (kept_items (select_items markup)) /\
   prices = map record_price (kept_items (select_items markup))) /\
  match fst (scrape_ebay_results select_items requests_get url) with
  | Ok (Some (titles, prices)) =>
      List.length titles = List.length prices /\
      exists kept,
        titles = map record_title kept /\ prices = map record_price kept
  | _ => True
  end.
Proof.
  split.
  - rewrite extract_records_spec. now rewrite !length_map.
  - destruct (fst (scrape_ebay_results select_items requests_get url))
      as [[[titles prices]|]|e] eqn:E; try exact I.
    apply attempts_loop_result in E. destruct E as [mk E].
    rewrite extract_records_spec in E. injection E as -> ->.
    split; [now rewrite !length_map|].
    now exists (kept_items (select_items mk)).
Qed.

(** The scenario of three item nodes: a product with a price, the placeholder
    tile, and a product without a price element. *)
Example extraction_scenario :
  let page := fun _ : string =>
    [mkItem (Some (mkTag "Anime DVD Box Set")) (Some (mkTag "$9.99"));
     mkItem (Some (mkTag "Shop on eBay")) None;
     mkItem (Some (mkTag "Rare Anime Collection")) None] in
  extract_records page "<html>" =
    (["Anime DVD Box Set"; "Rare Anime Collection"], [Some (999 # 100); None]).
Proof. reflexivity. Qed.

Ltac attempt_step :=
  rewrite attempts_loop_step; cbv zeta; rewrite ?with_page_size_idem;
  cbn [after_attempt requested sleeps Datatypes.length app Nat.ltb Nat.leb
       fresh Nat.eqb max_retries Nat.sub].

(** C9: when the first two requests fail at transport level and the third
    succeeds, [scrape_ebay_results] returns the records of the third response
    after exactly three requests; no run makes more than three requests; and
    when all three fail at transport level it raises an exception whose text
    holds the attempt count 3 and the text of the last error. *)
Theorem retry_until_third_attempt
    (select_items : string -> list Item)
    (requests_get : nat -> string -> exc Response) (url : string) :
  let u := with_page_size url in
  let run := scrape_ebay_results select_items requests_get url in
  (forall e1 e2 markup,
      fetch (requests_get 0%nat u) = Raise (RequestException e1) ->
      fetch (requests_get 1%nat u) = Raise (RequestException e2) ->
      fetch (requests_get 2%nat u) = Ok markup ->
      run = (Ok (Some (extract_records select_items markup)),
             mkWorld [u; u; u] 2)) /\
  (List.length (requested (snd run)) <= 3)%nat /\
  (forall e1 e2 e3,
      fetch (requests_get 0%nat u) = Raise (RequestException e1) ->
      fetch (requests_get 1%nat u) = Raise (RequestException e2) ->
      fetch (requests_get 2%nat u) = Raise (RequestException e3) ->
      run = (Raise (Exception ("Failed to fetch eBay results after 3 attempts: "
                               ++ e3)),
             mkWorld [u; u; u] 2)).
Proof.
  cbv zeta. unfold scrape_ebay_results.
  change (seq 0 max_retries) with [0; 1; 2]%nat.
  split; [|split].
  - intros e1 e2 markup H1 H2 H3.
    attempt_step. rewrite H1. attempt_step. rewrite H2.
    attempt_step. rewrite H3. reflexivity.
  - apply (attempts_loop_requests select_items requests_get [0; 1; 2]%nat url fresh).
  - intros e1 e2 e3 H1 H2 H3.
    attempt_step. rewrite H1. attempt_step. rewrite H2.
    attempt_step. rewrite H3. reflexivity.
Qed.

Lemma retry_until_third_attempt_witness :
  let select_items := fun _ : string =>
    [mkItem (Some (mkTag "Anime DVD Box Set")) (Some (mkTag "$9.99"))] in
  let flaky := fun (n : nat) (url : string) =>
    if (n <? 2)%nat then Raise (RequestException "timed out")
    else Ok (mkResponse 200 "OK" url "<html>") in
  let down := fun (n : nat) (url : string) =>
    if (n <? 2)%nat then Raise (RequestException "timed out")
    else Ok (mkResponse 503 "Service Unavailable" url "") in
  let u := "https://www.ebay.com/sch/i.html?_nkw=dvd&_ipg=60" in
  scrape_ebay_results select_items flaky "https://www.ebay.com/sch/i.html?_nkw=dvd"
    = (Ok (Some (["Anime DVD Box Set"], [Some (999 # 100)])), mkWorld [u; u; u] 2) /\
  scrape_ebay_results select_items down "https://www.ebay.com/sch/i.html?_nkw=dvd"
    = (Raise (Exception
         ("Failed to fetch eBay results after 3 attempts: "
          ++ "503 Server Error: Service Unavailable for url: " ++ u)),
       mkWorld [u; u; u] 2).
Proof.
  intros select_items flaky down u. split.
  - apply (proj1 (retry_until_third_attempt select_items flaky
                    "https://www.ebay.com/sch/i.html?_nkw=dvd")
             "timed out" "timed out" "<html>"); reflexivity.
  - apply (proj2 (proj2 (retry_until_third_attempt select_items down
                    "https://www.ebay.com/sch/i.html?_nkw=dvd"))
             "timed out" "timed out"
             ("503 Server Error: Service Unavailable for url: " ++ u)); reflexivity.
Defined.

(** ** suggest_title *)

Lemma length_title_from (prev : bool) (s : string) :
  String.length (title_from prev s) = String.length s.
Proof.
  revert prev. induction s as [|c s IH]; intros prev; simpl; [reflexivity|].
  now rewrite IH.
Qed.

Lemma len_title (s : string) : len (title s) = len s.
Proof. unfold len, title. now rewrite length_title_from. Qed.

Lemma join_cons (sep x : string) (l : list string) :
  join sep (x :: l) = match l with [] => x | _ => x ++ sep ++ join sep l end.
Proof. reflexivity. Qed.

Lemma join_snoc (sep x : string) (l : list string) :
  join sep (l ++ [x]) =
    match l with [] => x | _ => join sep l ++ sep ++ x end.
Proof.
  induction l as [|y l IH]; [reflexivity|].
  change ((y :: l) ++ [x])%list with (y :: (l ++ [x]))%list.
  rewrite join_cons, IH. destruct l as [|z l]; [reflexivity|].
  cbn [app]. rewrite (join_cons sep y (z :: l)).
  now rewrite !append_assoc.
Qed.

Lemma join_empty_snoc (x : string) (l : list string) :
  join "" (l ++ [x]) = join "" l ++ x.
Proof. rewrite join_snoc. now destruct l. Qed.

Lemma nonempty_snoc {A : Type} (l : list A) (x : A) :
  nonempty (l ++ [x]) = true.
Proof. now destruct l. Qed.

(** From the state reached after the keywords [taken], the loop takes some
    [n] more: each of them fits, and the next one, if any, does not. *)
Lemma keywords_loop_greedy (max_length : Z) (keywords taken : list (string * Z))
    (title_parts : list string) :
  let titled := fun l => join ", " (map (fun kw => title (fst kw)) l) in
  join "" title_parts = titled taken ->
  nonempty title_parts = nonempty taken ->
  exists n parts,
    keywords_loop max_length keywords title_parts (len (titled taken))
      = (parts, len (titled (taken ++ firstn n keywords)%list)) /\
    join "" parts = titled (taken ++ firstn n keywords)%list /\
    (n <= List.length keywords)%nat /\
    (forall k, (1 <= k <= n)%nat ->
               (len (titled (taken ++ firstn k keywords)%list) <= max_length)%Z) /\
    ((n < List.length keywords)%nat ->
     (max_length < len (titled (taken ++ firstn (S n) keywords)%list))%Z).
Proof.
  intros titled. revert taken title_parts.
  assert (Hsnoc : forall taken kw,
             len (titled (taken ++ [kw])%list) =
             (len (titled taken) + (if nonempty taken then 2 else 0)
              + len (fst kw))%Z).
  { intros taken kw. unfold titled. rewrite map_app. cbn [map].
    rewrite join_snoc. destruct taken as [|a taken].
    - cbn. now rewrite len_title.
    - cbn [map nonempty]. rewrite !len_append, len_title.
      change (len ", ") with 2%Z. lia. }
  induction keywords as [|[keyword freq] rest IH]; intros taken title_parts Hj Hn.
  - exists 0%nat, title_parts. cbn [keywords_loop firstn List.length].
    rewrite app_nil_r. repeat split; auto; lia.
  - cbn [keywords_loop]. rewrite Hn.
    assert (Hadd : (len keyword + (if nonempty taken then 1 else 0)
                    + (if nonempty taken then 1 else 0)
                    = (if nonempty taken then 2 else 0) + len keyword)%Z)
      by (destruct (nonempty taken); lia).
    destruct (len (titled taken) + _ <=? max_length)%Z eqn:Efit.
    + apply Z.leb_le in Efit.
      pose proof (Hsnoc taken (keyword, freq)) as Hlen. cbn [fst] in Hlen.
      set (parts' := ((if nonempty taken
                       then (title_parts ++ [", "])%list else title_parts)
                      ++ [title keyword])%list).
      assert (Hj' : join "" parts' = titled (taken ++ [(keyword, freq)])%list).
      { unfold parts', titled. rewrite map_app. cbn [map fst].
        rewrite join_empty_snoc, join_snoc.
        destruct taken as [|a taken]; cbn [nonempty].
        - destruct title_parts; [reflexivity | discriminate].
        - rewrite join_empty_snoc. fold (titled (a :: taken)). rewrite Hj.
          cbn [map]. now rewrite append_assoc. }
      assert (Hn' : nonempty parts' = nonempty (taken ++ [(keyword, freq)])%list).
      { unfold parts'. now rewrite !nonempty_snoc. }
      destruct (IH (taken ++ [(keyword, freq)])%list parts' Hj' Hn')
        as (n & parts & Hrun & Hjoin & Hle & Hfit & Hstop).
      exists (S n), parts.
      assert (Happ : forall k, ((taken ++ [(keyword, freq)]) ++ firstn k rest
                               = taken ++ firstn (S k) ((keyword, freq) :: rest))%list)
        by (intros k; now rewrite <- app_assoc).
      rewrite <- !Happ. split; [|split; [|split; [|split]]].
      * rewrite <- Hrun. rewrite Hlen. unfold parts'.
        destruct (nonempty taken); f_equal; lia.
      * assumption.
      * simpl. lia.
      * intros k Hk. destruct k as [|k]; [lia|]. rewrite <- Happ.
        destruct k as [|k].
        -- cbn [firstn]. rewrite app_nil_r, Hlen. lia.
        -- apply Hfit. lia.
      * intros Hlt. apply Hstop. simpl in Hlt. lia.
    + apply Z.leb_gt in Efit.
      exists 0%nat, title_parts. cbn [firstn]. rewrite app_nil_r.
      split; [reflexivity|]. split; [assumption|]. split; [lia|].
      split; [intros k Hk; lia|]. intros _.
      rewrite (Hsnoc taken (keyword, freq)). cbn [fst]. lia.
Qed.

Lemma keyword_title_greedy (keyword_freq : dict) (max_length : Z) :
  let sorted_keywords := sorted_desc (firstn 10 (items keyword_freq)) in
  exists n,
    (n <= List.length sorted_keywords)%nat /\
    keyword_title keyword_freq max_length = titled_prefix n sorted_keywords /\
    (forall k, (1 <= k <= n)%nat ->
               (len (titled_prefix k sorted_keywords) <= max_length)%Z) /\
    ((n < List.length sorted_keywords)%nat ->
     (max_length < len (titled_prefix (S n) sorted_keywords))%Z).
Proof.
  intros sorted_keywords.
  destruct (keywords_loop_greedy max_length sorted_keywords [] [] eq_refl eq_refl)
    as (n & parts & Hrun & Hjoin & Hle & Hfit & Hstop).
  exists n. unfold keyword_title. fold sorted_keywords.
  change (len (join ", " (map (fun kw : string * Z => title (fst kw)) [])))
    with 0%Z in Hrun.
  rewrite Hrun. repeat split; assumption.
Qed.


Lemma suggest_title_eq (keyword_freq : dict) (max_length : Z) :
  suggest_title keyword_freq max_length =
    let t := keyword_title keyword_freq max_length in
    if (len t <? max_length - 15)%Z then t ++ " - New" else t.
Proof.
  unfold suggest_title, suggest_title_body. cbn [try_except]. cbv zeta.
  destruct (len _ <? max_length - 15)%Z eqn:E; [|reflexivity].
  apply Z.ltb_lt in E. cbn [common_suffixes suffix_loop].
  change (len " - New") with 6%Z.
  destruct (len _ + 6 <=? max_length)%Z eqn:E6; [reflexivity|].
  apply Z.leb_gt in E6. lia.
Qed.

(** C1 (as amended): for the empty ranking and the default length 80 the result
    is the first suffix alone, " - New"; the fallback string is what a raised
    error turns into, and the body of [suggest_title] raises none. *)
Theorem suggest_title_empty_ranking :
  suggest_title [] default_max_length = " - New" /\
  (forall keyword_freq max_length,
      suggest_title_body keyword_freq max_length
        = Ok (suggest_title keyword_freq max_length)).
Proof. split; reflexivity. Qed.

(** C1, as stated, fails: the empty ranking does not give the fallback
    string. *)
Lemma suggest_title_empty_not_fallback :
  suggest_title [] default_max_length <> fallback_title.
Proof. discriminate. Qed.




(** C6 (as amended): the first suffix, " - New", is appended exactly when the
    keyword part leaves more than 15 characters unused, and it then fits, being
    the first suffix of the list that does; otherwise the keyword part is
    returned unchanged. *)
Theorem suggest_title_suffix_rule (keyword_freq : dict) (max_length : Z) :
  let t := keyword_title keyword_freq max_length in
  suggest_title keyword_freq max_length =
    (if (15 <? max_length - len t)%Z then t ++ " - New" else t) /\
  (if (15 <? max_length - len t)%Z
   then (len t + len " - New" <= max_length)%Z /\
        suffix_loop max_length common_suffixes t = t ++ " - New"
   else True).
Proof.
  intros t. rewrite suggest_title_eq. fold t. cbv zeta.
  replace (len t <? max_length - 15)%Z with (15 <? max_length - len t)%Z
    by (destruct (15 <? max_length - len t)%Z eqn:E; symmetry;
        [apply Z.ltb_lt; apply Z.ltb_lt in E | apply Z.ltb_ge; apply Z.ltb_ge in E]; lia).
  split; [reflexivity|].
  destruct (15 <? max_length - len t)%Z eqn:E; [|exact I].
  apply Z.ltb_lt in E. change (len " - New") with 6%Z.
  split; [lia|]. cbn [common_suffixes suffix_loop]. change (len " - New") with 6%Z.
  destruct (len t + 6 <=? max_length)%Z eqn:E6; [reflexivity|].
  apply Z.leb_gt in E6. lia.
Qed.

(** C6, as stated, fails at the boundary: with exactly 15 characters unused
    the suffix " - New" would fit, and the title is returned without any
    suffix. *)
Lemma suggest_title_boundary_no_suffix :
  let keyword_freq := [(long_keyword, 1%Z)] in
  let t := keyword_title keyword_freq default_max_length in
  (default_max_length - len t = 15)%Z /\
  (len t + len " - New" <= default_max_length)%Z /\
  suggest_title keyword_freq default_max_length = t /\
  forall suffix, In suffix common_suffixes ->
    suggest_title keyword_freq default_max_length <> t ++ suffix.
Proof.
  cbv zeta. split; [reflexivity|]. split; [discriminate|]. split; [reflexivity|].
  intros suffix [<-|[<-|[<-|[]]]]; discriminate.
Qed.

(** ** preprocess_text *)

Lemma mem_false_not_in (x : string) (s : list string) :
  mem x s = false -> ~ In x s.
Proof.
  unfold mem. intros Hm Hin.
  assert (existsb (String.eqb x) s = true) as Ht
      by (apply existsb_exists; exists x; split; [assumption | apply String.eqb_refl]).
  congruence.
Qed.

(** C4: every token that [preprocess_text] returns is purely alphabetic (it is
    not empty and all its characters are letters), is longer than 2, and is in
    neither part of the stopword set: not in the custom list, and not in the
    English list of the corpus or, when the corpus cannot be read, not in the
    basic list. *)
Theorem preprocess_text_tokens_filtered
    (word_tokenize : string -> exc (list string))
    (stopwords_words : string -> exc (list string)) (text token : string) :
  In token (preprocess_text word_tokenize stopwords_words text) ->
  (isalpha token = true /\ token <> "" /\ forall_string is_alpha token = true) /\
  (2 < len token)%Z /\
  ~ In token (stop_words stopwords_words) /\
  ~ In token custom_stopwords /\
  match stopwords_words "english" with
  | Ok english => ~ In token english
  | Raise _ => ~ In token basic_stopwords
  end.
Proof.
  unfold preprocess_text, preprocess_text_body. cbn [try_except].
  intros Hin. apply filter_In in Hin as [_ Hk].
  unfold keep_token in Hk.
  apply andb_true_iff in Hk as [Hk Hs]. apply andb_true_iff in Hk as [Ha Hl].
  apply negb_true_iff in Hs. apply mem_false_not_in in Hs.
  split; [|split; [|split; [|split]]].
  - split; [assumption|]. destruct token; [discriminate|]. split; [discriminate|exact Ha].
  - now apply Z.ltb_lt.
  - assumption.
  - intros Hc. apply Hs. unfold stop_words. apply in_or_app. now right.
  - unfold stop_words in Hs.
    destruct (stopwords_words "english") as [english|e]; cbn [try_except] in Hs;
      intros Hc; apply Hs; apply in_or_app; now left.
Qed.

Lemma preprocess_text_tokens_filtered_witness :
  let no_punkt := fun _ : string => @Raise (list string) (LookupError "punkt") in
  let no_corpus := fun _ : string => @Raise (list string) (LookupError "stopwords") in
  preprocess_text no_punkt no_corpus "Brand New! Anime DVD box-set, the anime of 2020"
    = ["anime"; "dvd"; "boxset"; "anime"] /\
  (isalpha "dvd" = true /\ "dvd" <> "" /\ forall_string is_alpha "dvd" = true) /\
  (2 < len "dvd")%Z /\
  ~ In "dvd" (stop_words no_corpus) /\
  ~ In "dvd" custom_stopwords /\
  ~ In "dvd" basic_stopwords.
Proof.
  intros no_punkt no_corpus. split; [reflexivity|].
  apply (preprocess_text_tokens_filtered no_punkt no_corpus
           "Brand New! Anime DVD box-set, the anime of 2020" "dvd").
  vm_compute. right. left. reflexivity.
Defined.

(** ** Counting and ranking *)

Section RankingFacts.

Local Open Scope list_scope.
Local Open Scope Z_scope.

Lemma mem_iff (x : string) (s : list string) : mem x s = true <-> In x s.
Proof.
  unfold mem. rewrite existsb_exists. split.
  - intros (y & Hy & He). apply String.eqb_eq in He. now subst.
  - intros H. exists x. split; [assumption | apply String.eqb_refl].
Qed.

Lemma first_appearances_in (k : string) (l : list string) :
  In k (first_appearances l) <-> In k l.
Proof.
  induction l as [|t l IH]; [reflexivity|].
  cbn [first_appearances In]. rewrite filter_In, IH, negb_true_iff, String.eqb_neq.
  destruct (string_dec t k) as [->|Hn]; [tauto|]. intuition congruence.
Qed.

Lemma first_appearances_nodup (l : list string) : NoDup (first_appearances l).
Proof.
  induction l as [|t l IH]; cbn [first_appearances]; constructor.
  - rewrite filter_In, negb_true_iff, String.eqb_neq. tauto.
  - now apply NoDup_filter.
Qed.

Lemma first_appearances_snoc (l : list string) (t : string) :
  first_appearances (l ++ [t]) =
    if mem t l then first_appearances l else first_appearances l ++ [t].
Proof.
  induction l as [|a l IH]; [reflexivity|].
  cbn [app first_appearances]. rewrite IH.
  unfold mem. cbn [existsb]. fold (mem t l).
  destruct (mem t l); [now rewrite orb_true_r|].
  rewrite orb_false_r, filter_app. cbn [filter].
  destruct (String.eqb t a); cbn [negb]; [now rewrite app_nil_r | reflexivity].
Qed.

Lemma occurrences_snoc (k t : string) (l : list string) :
  occurrences k (l ++ [t]) =
    occurrences k l + (if String.eqb k t then 1 else 0).
Proof.
  unfold occurrences. rewrite count_occ_app. cbn [count_occ].
  destruct (string_dec t k) as [->|Hn].
  - rewrite String.eqb_refl. lia.
  - destruct (String.eqb_spec k t); [congruence | lia].
Qed.

Lemma occurrences_absent (k : string) (l : list string) :
  ~ In k l -> occurrences k l = 0.
Proof.
  intros H. unfold occurrences.
  now rewrite (proj1 (count_occ_not_In string_dec l k) H).
Qed.

Lemma occurrences_present (k : string) (l : list string) :
  In k l -> 1 <= occurrences k l.
Proof.
  intros H. unfold occurrences.
  apply (count_occ_In string_dec) in H. lia.
Qed.

Lemma dict_get_tabulate (f : string -> Z) (ks : list string) (t : string) :
  dict_get (tabulate f ks) t 0 = if mem t ks then f t else 0.
Proof.
  induction ks as [|k ks IH]; [reflexivity|].
  cbn [tabulate map dict_get]. unfold mem. cbn [existsb]. fold (mem t ks).
  destruct (String.eqb_spec t k) as [->|Hn]; [reflexivity|]. exact IH.
Qed.

Lemma dict_set_tabulate_new (f : string -> Z) (ks : list string) (t : string)
    (v : Z) :
  ~ In t ks -> dict_set (tabulate f ks) t v = tabulate f ks ++ [(t, v)].
Proof.
  induction ks as [|k ks IH]; intros Hn; [reflexivity|].
  cbn [tabulate map dict_set app].
  destruct (String.eqb_spec t k) as [->|Hk]; [destruct Hn; now left|].
  fold (tabulate f ks). rewrite IH; [reflexivity|]. intros H. apply Hn. now right.
Qed.

Lemma dict_set_tabulate_old (f : string -> Z) (ks : list string) (t : string)
    (v : Z) :
  NoDup ks -> In t ks ->
  dict_set (tabulate f ks) t v =
    tabulate (fun k => if String.eqb k t then v else f k) ks.
Proof.
  induction ks as [|k ks IH]; intros Hnd Hin; [destruct Hin|].
  inversion Hnd as [|? ? Hk Hnd']; subst.
  cbn [tabulate map dict_set].
  destruct (String.eqb_spec t k) as [->|Hne].
  - rewrite String.eqb_refl. f_equal. apply map_ext_in.
    intros a Ha. destruct (String.eqb_spec a k) as [->|_]; [contradiction|reflexivity].
  - destruct (String.eqb_spec k t) as [->|_]; [congruence|].
    f_equal. apply IH; [assumption|]. destruct Hin; [congruence|assumption].
Qed.

Lemma Counter_snoc (l : list string) (t : string) :
  Counter (l ++ [t]) =
    dict_set (Counter l) t (dict_get (Counter l) t 0 + 1).
Proof. unfold Counter. now rewrite fold_left_app. Qed.

(** The counter holds the distinct tokens in the order of their first
    appearance, each with the number of its occurrences. *)
Lemma Counter_spec (l : list string) :
  Counter l = tabulate (fun k => occurrences k l) (first_appearances l).
Proof.
  induction l as [|t l IH] using rev_ind; [reflexivity|].
  rewrite Counter_snoc, IH, dict_get_tabulate, first_appearances_snoc.
  destruct (mem t (first_appearances l)) eqn:Em.
  - apply (proj1 (mem_iff _ _)) in Em.
    pose proof (proj1 (first_appearances_in _ _) Em) as Hl.
    rewrite (proj2 (mem_iff _ _) Hl).
    rewrite dict_set_tabulate_old by (auto using first_appearances_nodup).
    apply map_ext. intros k. rewrite occurrences_snoc.
    destruct (String.eqb_spec k t) as [->|_]; f_equal; lia.
  - assert (Hn : ~ In t (first_appearances l))
      by (intros H; apply (proj2 (mem_iff _ _)) in H; congruence).
    assert (Hl : ~ In t l)
      by (intros H; apply Hn; now apply first_appearances_in).
    replace (mem t l) with false
      by (symmetry; apply not_true_is_false; intros H;
          now apply (proj1 (mem_iff _ _)) in H).
    rewrite dict_set_tabulate_new by assumption.
    unfold tabulate. rewrite map_app. cbn [map]. f_equal.
    + apply map_ext_in. intros k Hk. rewrite occurrences_snoc.
      destruct (String.eqb_spec k t) as [->|_]; [contradiction|]. f_equal. lia.
    + rewrite occurrences_snoc, String.eqb_refl, occurrences_absent by assumption.
      reflexivity.
Qed.

(** *** The stable descending sort *)

Lemma insert_desc_perm (x : string * Z) (l : list (string * Z)) :
  Permutation (insert_desc x l) (x :: l).
Proof.
  induction l as [|y l IH]; cbn [insert_desc]; [reflexivity|].
  destruct (snd y <=? snd x); [reflexivity|].
  rewrite IH. apply perm_swap.
Qed.

Lemma sorted_desc_perm (l : list (string * Z)) : Permutation (sorted_desc l) l.
Proof.
  induction l as [|x l IH]; cbn [sorted_desc]; [reflexivity|].
  rewrite insert_desc_perm. now constructor.
Qed.

Lemma insert_desc_descending (x : string * Z) (l : list (string * Z)) :
  descending l -> descending (insert_desc x l).
Proof.
  unfold descending. induction l as [|y l IH]; intros Hs; cbn [insert_desc].
  - repeat constructor.
  - inversion Hs as [|? ? Hl Hy]; subst.
    destruct (snd y <=? snd x) eqn:E.
    + apply Z.leb_le in E. constructor; [assumption|].
      constructor; [assumption|].
      eapply Forall_impl; [|exact Hy]. cbn beta. intros b Hb. lia.
    + apply Z.leb_gt in E. constructor; [now apply IH|].
      eapply Permutation_Forall; [symmetry; apply insert_desc_perm|].
      constructor; [lia | assumption].
Qed.

Lemma sorted_desc_descending (l : list (string * Z)) : descending (sorted_desc l).
Proof.
  induction l as [|x l IH]; cbn [sorted_desc]; [constructor|].
  now apply insert_desc_descending.
Qed.

Lemma insert_desc_filter (c : Z) (x : string * Z) (l : list (string * Z)) :
  filter (fun kv => snd kv =? c) (insert_desc x l) =
  filter (fun kv => snd kv =? c) (x :: l).
Proof.
  induction l as [|y l IH]; cbn [insert_desc]; [reflexivity|].
  destruct (snd y <=? snd x) eqn:E; [reflexivity|].
  apply Z.leb_gt in E. cbn [filter] in *. rewrite IH.
  destruct (Z.eqb_spec (snd x) c) as [Hx|Hx]; [|reflexivity].
  destruct (Z.eqb_spec (snd y) c) as [Hy|Hy]; [lia | reflexivity].
Qed.

(** Stability: the entries of any one count keep their order. *)
Lemma sorted_desc_stable (c : Z) (l : list (string * Z)) :
  filter (fun kv => snd kv =? c) (sorted_desc l) =
  filter (fun kv => snd kv =? c) l.
Proof.
  induction l as [|x l IH]; [reflexivity|].
  cbn [sorted_desc]. rewrite insert_desc_filter. cbn [filter]. now rewrite IH.
Qed.

(** *** [dict(...)] of entries with distinct keys *)

Lemma dict_set_new (d : dict) (k : string) (v : Z) :
  ~ In k (map fst d) -> dict_set d k v = d ++ [(k, v)].
Proof.
  induction d as [|[k' v'] d IH]; intros Hn; [reflexivity|].
  cbn [dict_set app]. cbn [map fst In] in Hn.
  destruct (String.eqb_spec k k') as [->|_]; [destruct Hn; now left|].
  rewrite IH; [reflexivity|]. tauto.
Qed.

Lemma dict_of_distinct (pairs : list (string * Z)) :
  NoDup (map fst pairs) -> dict_of pairs = pairs.
Proof.
  induction pairs as [|[k v] pairs IH] using rev_ind; intros Hnd; [reflexivity|].
  rewrite map_app in Hnd. cbn [map fst] in Hnd.
  apply NoDup_remove in Hnd as [Hnd Hk]. rewrite app_nil_r in Hnd, Hk.
  unfold dict_of in *. rewrite fold_left_app. cbn [fold_left fst snd].
  rewrite IH by assumption. now apply dict_set_new.
Qed.

Lemma Counter_keys (l : list string) :
  map fst (Counter l) = first_appearances l.
Proof.
  rewrite Counter_spec. unfold tabulate. rewrite map_map. cbn [fst]. apply map_id.
Qed.

(** The ranking of a token list is the stable sort of its counter. *)
Lemma ranking_is_sorted_counter (tokens : list string) :
  dict_of (sorted_desc (items (Counter tokens))) = sorted_desc (Counter tokens).
Proof.
  unfold items. apply dict_of_distinct.
  eapply Permutation_NoDup.
  - apply Permutation_map. symmetry. apply sorted_desc_perm.
  - rewrite Counter_keys. apply first_appearances_nodup.
Qed.

Lemma ranking_spec (tokens : list string) :
  let ranking := dict_of (sorted_desc (items (Counter tokens))) in
  descending ranking /\
  (forall k c, In (k, c) ranking ->
               c = occurrences k tokens /\ 1 <= c /\ In k tokens) /\
  (forall c, keys_with_count c ranking =
             filter (fun k => occurrences k tokens =? c)
                    (first_appearances tokens)).
Proof.
  cbv zeta. rewrite ranking_is_sorted_counter. split; [|split].
  - apply sorted_desc_descending.
  - intros k c Hin.
    apply (Permutation_in _ (sorted_desc_perm (Counter tokens))) in Hin.
    rewrite Counter_spec in Hin. unfold tabulate in Hin.
    apply in_map_iff in Hin as (k' & [= -> <-] & Hk).
    apply (proj1 (first_appearances_in _ _)) in Hk.
    split; [reflexivity|]. split; [now apply occurrences_present | assumption].
  - intros c. unfold keys_with_count. rewrite sorted_desc_stable, Counter_spec.
    unfold tabulate. induction (first_appearances tokens) as [|k ks IH];
      [reflexivity|].
    cbn [map filter snd]. destruct (occurrences k tokens =? c); cbn [map fst];
      now rewrite IH.
Qed.

End RankingFacts.

(** C5: the ranking that [analyze_keywords] returns is the counter of the
    tokens of the joined titles, sorted; and for every token sequence that
    ranking is in descending order of count, each count being the number of
    occurrences of its key, and the keys of any one count stand in the order
    in which they first appear among the tokens. *)
Theorem ranking_by_count_then_first_seen
    (word_tokenize : string -> exc (list string))
    (stopwords_words : string -> exc (list string)) :
  (forall titles,
      analyze_keywords word_tokenize stopwords_words titles =
        dict_of (sorted_desc (items (Counter
          (preprocess_text word_tokenize stopwords_words (join " " titles)))))) /\
  (forall tokens,
      let ranking := dict_of (sorted_desc (items (Counter tokens))) in
      descending ranking /\
      (forall k c, In (k, c) ranking ->
                   c = occurrences k tokens /\ (1 <= c)%Z /\ In k tokens) /\
      (forall c, keys_with_count c ranking =
                 filter (fun k => (occurrences k tokens =? c)%Z)
                        (first_appearances tokens))).
Proof.
  split; [reflexivity|]. intros tokens. apply ranking_spec.
Qed.

Lemma ranking_by_count_then_first_seen_witness :
  let no_punkt := fun _ : string => @Raise (list string) (LookupError "punkt") in
  let no_corpus := fun _ : string => @Raise (list string) (LookupError "stopwords") in
  analyze_keywords no_punkt no_corpus ["bbb ccc aaa"; "ccc bbb ddd aaa"]
    = [("bbb", 2%Z); ("ccc", 2%Z); ("aaa", 2%Z); ("ddd", 1%Z)] /\
  (2%Z = occurrences "aaa" ["bbb"; "ccc"; "aaa"; "ccc"; "bbb"; "ddd"; "aaa"] /\
   (1 <= 2)%Z /\ In "aaa" ["bbb"; "ccc"; "aaa"; "ccc"; "bbb"; "ddd"; "aaa"]).
Proof.
  intros no_punkt no_corpus. split; [reflexivity|].
  apply (proj1 (proj2 (proj2 (ranking_by_count_then_first_seen no_punkt no_corpus)
                         ["bbb"; "ccc"; "aaa"; "ccc"; "bbb"; "ddd"; "aaa"]))
           "aaa" 2%Z).
  right. right. left. reflexivity.
Defined.

(** ** calculate_price_stats *)

Section StatsFacts.

Local Open Scope list_scope.

Lemma round_half_even_near (x : Q) :
  let r := round_half_even x in
  let d := Zpos (Qden x) in
  (2 * (r * d - Qnum x) <= d /\ 2 * (Qnum x - r * d) <= d)%Z.
Proof.
  unfold round_half_even. cbv zeta.
  pose proof (Z.div_mod (Qnum x) (Zpos (Qden x)) ltac:(discriminate)) as Hdm.
  pose proof (Z.mod_pos_bound (Qnum x) (Zpos (Qden x)) ltac:(reflexivity)) as Hb.
  set (q := (Qnum x / Zpos (Qden x))%Z) in *.
  set (m := (Qnum x mod Zpos (Qden x))%Z) in *.
  destruct (2 * m <? Zpos (Qden x))%Z eqn:E1;
    [apply Z.ltb_lt in E1; lia|apply Z.ltb_ge in E1].
  destruct (Zpos (Qden x) <? 2 * m)%Z eqn:E2;
    [apply Z.ltb_lt in E2; lia|apply Z.ltb_ge in E2].
  destruct (Z.even q); lia.
Qed.

Lemma round2_rounded (x : Q) : is_rounded2 x (round2 x).
Proof.
  unfold is_rounded2, round2.
  pose proof (round_half_even_near (x * 100)) as H. cbv zeta in H.
  set (r := round_half_even (x * 100)) in *.
  split; [exists r; apply Qred_correct|].
  rewrite Qred_correct.
  destruct x as [n d]. cbn [Qnum Qden Qmult] in H.
  unfold Qle, Qminus, Qplus, Qopp. cbn [Qnum Qden].
  rewrite Pos.mul_1_r in H. split; lia.
Qed.

(** *** The ascending sort *)

Lemma insert_asc_perm (x : Q) (l : list Q) :
  Permutation (insert_asc x l) (x :: l).
Proof.
  induction l as [|y l IH]; cbn [insert_asc]; [reflexivity|].
  destruct (Qle_bool x y); [reflexivity|].
  rewrite IH. apply perm_swap.
Qed.

Lemma sorted_asc_perm (l : list Q) : Permutation (sorted_asc l) l.
Proof.
  induction l as [|x l IH]; cbn [sorted_asc]; [reflexivity|].
  rewrite insert_asc_perm. now constructor.
Qed.

Lemma insert_asc_sorted (x : Q) (l : list Q) :
  StronglySorted Qle l -> StronglySorted Qle (insert_asc x l).
Proof.
  induction l as [|y l IH]; intros Hs; cbn [insert_asc].
  - repeat constructor.
  - inversion Hs as [|? ? Hl Hy]; subst.
    destruct (Qle_bool x y) eqn:E.
    + apply Qle_bool_iff in E. constructor; [assumption|].
      constructor; [assumption|].
      eapply Forall_impl; [|exact Hy]. cbn beta.
      intros b Hb. now apply Qle_trans with y.
    + assert (Hyx : (y <= x)%Q).
      { apply Qlt_le_weak, Qnot_le_lt. intros H.
        apply Qle_bool_iff in H. congruence. }
      constructor; [now apply IH|].
      eapply Permutation_Forall; [symmetry; apply insert_asc_perm|].
      now constructor.
Qed.

Lemma sorted_asc_sorted (l : list Q) : StronglySorted Qle (sorted_asc l).
Proof.
  induction l as [|x l IH]; cbn [sorted_asc]; [constructor|].
  now apply insert_asc_sorted.
Qed.

Lemma odd_test (n : nat) : (n mod 2 =? 1)%nat = negb (Nat.even n).
Proof.
  destruct (Nat.even n) eqn:E.
  - apply Nat.even_spec in E as [k ->].
    now rewrite Nat.mul_comm, Nat.Div0.mod_mul.
  - assert (Ho : Nat.odd n = true) by (now rewrite <- Nat.negb_even, E).
    apply Nat.odd_spec in Ho as [k ->].
    now rewrite Nat.add_comm, Nat.mul_comm, Nat.Div0.mod_add.
Qed.

Lemma median_spec (x : Q) (data : list Q) :
  exists m, median (x :: data) = Ok m /\ is_median (x :: data) m.
Proof.
  unfold median. cbv zeta.
  pose proof (Permutation_length (sorted_asc_perm (x :: data))) as Hlen.
  destruct (List.length (sorted_asc (x :: data)) =? 0)%nat eqn:E0.
  - apply Nat.eqb_eq in E0. rewrite E0 in Hlen. discriminate.
  - rewrite odd_test.
    destruct (Nat.even (List.length (sorted_asc (x :: data)))) eqn:Ev;
      cbn [negb]; (eexists; split; [reflexivity|]);
      exists (sorted_asc (x :: data));
      (split; [apply sorted_asc_perm|]); (split; [apply sorted_asc_sorted|]);
      cbv zeta; now rewrite Ev.
Qed.

(** *** Mean, minimum and maximum *)

Lemma mean_spec (x : Q) (data : list Q) :
  exists a, mean (x :: data) = Ok a /\ is_mean (x :: data) a.
Proof.
  eexists. split; [reflexivity|]. unfold is_mean.
  rewrite Qmult_comm. apply Qmult_div_r.
  cbn [List.length]. unfold Qeq, inject_Z. cbn [Qnum Qden]. lia.
Qed.

Lemma fold_min_spec (rest : list Q) (x : Q) :
  let lo := fold_left (fun m y => if Qlt_le_dec y m then y else m) rest x in
  In lo (x :: rest) /\ forall y, In y (x :: rest) -> (lo <= y)%Q.
Proof.
  revert x. induction rest as [|z rest IH]; intros x; cbn [fold_left].
  - split; [now left|]. intros y [<-|[]]. apply Qle_refl.
  - destruct (Qlt_le_dec z x) as [Hlt|Hle].
    + destruct (IH z) as [Hin Hmin]. split.
      * destruct Hin as [<-|Hin]; [right; now left | right; now right].
      * intros y [<-|[<-|Hy]].
        -- apply Qle_trans with z; [apply Hmin; now left | now apply Qlt_le_weak].
        -- apply Hmin. now left.
        -- apply Hmin. now right.
    + destruct (IH x) as [Hin Hmin]. split.
      * destruct Hin as [<-|Hin]; [now left | right; now right].
      * intros y [<-|[<-|Hy]].
        -- apply Hmin. now left.
        -- apply Qle_trans with x; [apply Hmin; now left | assumption].
        -- apply Hmin. now right.
Qed.

Lemma fold_max_spec (rest : list Q) (x : Q) :
  let hi := fold_left (fun m y => if Qlt_le_dec m y then y else m) rest x in
  In hi (x :: rest) /\ forall y, In y (x :: rest) -> (y <= hi)%Q.
Proof.
  revert x. induction rest as [|z rest IH]; intros x; cbn [fold_left].
  - split; [now left|]. intros y [<-|[]]. apply Qle_refl.
  - destruct (Qlt_le_dec x z) as [Hlt|Hle].
    + destruct (IH z) as [Hin Hmax]. split.
      * destruct Hin as [<-|Hin]; [right; now left | right; now right].
      * intros y [<-|[<-|Hy]].
        -- apply Qle_trans with z; [now apply Qlt_le_weak | apply Hmax; now left].
        -- apply Hmax. now left.
        -- apply Hmax. now right.
    + destruct (IH x) as [Hin Hmax]. split.
      * destruct Hin as [<-|Hin]; [now left | right; now right].
      * intros y [<-|[<-|Hy]].
        -- apply Hmax. now left.
        -- apply Qle_trans with x; [assumption | apply Hmax; now left].
        -- apply Hmax. now right.
Qed.

Lemma valid_prices_filter (prices : list (option Q)) :
  map Some (valid_prices prices) = filter is_some prices.
Proof.
  unfold valid_prices. induction prices as [|[v|] prices IH]; cbn; [reflexivity| |assumption].
  now rewrite IH.
Qed.

End StatsFacts.

(** C8: [calculate_price_stats] works on the non-absent prices, in their
    order.  When there is none, all four fields are 0.  Otherwise the fields
    are the mean, the median (the middle value of the sorted prices, or the
    average of the two middle values for an even count), the least and the
    greatest of those prices, each rounded to 2 fractional digits: a whole
    number of hundredths, no further than half a hundredth from the value.
    For the empty list the result is all zeros, and for 10.00, 20.00, 30.00 it
    is average 20, median 20, minimum 10, maximum 30. *)
Theorem calculate_price_stats_spec :
  calculate_price_stats [] = mkStats 0 0 0 0 /\
  calculate_price_stats [Some (10 # 1); Some (20 # 1); Some (30 # 1)]
    = mkStats (20 # 1) (20 # 1) (10 # 1) (30 # 1) /\
  forall prices,
    let valid := valid_prices prices in
    let stats := calculate_price_stats prices in
    map Some valid = filter is_some prices /\
    match valid with
    | [] => stats = mkStats 0 0 0 0
    | _ :: _ =>
        exists a m lo hi,
          is_mean valid a /\ is_median valid m /\
          is_min valid lo /\ is_max valid hi /\
          is_rounded2 a (average stats) /\
          is_rounded2 m (median_price stats) /\
          is_rounded2 lo (min_price stats) /\
          is_rounded2 hi (max_price stats)
    end.
Proof.
  split; [reflexivity|]. split; [reflexivity|].
  intros prices valid stats. split; [apply valid_prices_filter|].
  unfold stats, calculate_price_stats, calculate_price_stats_body. fold valid.
  destruct valid as [|x data]; [reflexivity|].
  cbn [nonempty negb].
  destruct (mean_spec x data) as (a & -> & Ha).
  destruct (median_spec x data) as (m & -> & Hm).
  cbn [bind py_min py_max try_except].
  exists a, m. eexists. eexists.
  split; [exact Ha|]. split; [exact Hm|].
  split; [exact (fold_min_spec data x)|]. split; [exact (fold_max_spec data x)|].
  cbn [average median_price min_price max_price].
  repeat split; apply round2_rounded.
Qed.


From Stdlib Require Import Lqa.
(** * Further properties *)

(** ** Prices *)

Lemma extract_price_cents (price_elem : option Tag) (v : Q) :
  extract_price price_elem = Some v ->
  exists k : Z, (0 <= k)%Z /\ (v == k # 100)%Q.
Proof.
  destruct price_elem as [elem|]; [|discriminate].
  intros Hv. destruct (re_search (get_text elem)) as [m|] eqn:Es.
  - destruct (extract_price_found _ _ Es) as (v' & Hv' & (run & d1 & d2 & i & _ & _ & Hval)).
    rewrite Hv in Hv'. injection Hv' as <-.
    exists (Z.of_N i * 100 + Z.of_N (10 * digit_val d1 + digit_val d2))%Z.
    split; [lia|]. rewrite Hval.
    unfold Qeq, Qplus, inject_Z. cbn [Qnum Qden]. lia.
  - rewrite (extract_price_not_found _ Es) in Hv. discriminate.
Qed.

(** X1: a price that [extract_price] returns is a whole number of hundredths
    and is not negative. *)
Theorem extract_price_whole_cents (elem : Tag) (v : Q) :
  extract_price (Some elem) = Some v ->
  exists k : Z, (0 <= k)%Z /\ (v == k # 100)%Q.
Proof. apply extract_price_cents. Qed.

Lemma extract_price_whole_cents_witness :
  exists k : Z, (0 <= k)%Z /\ (1234567 # 100 == k # 100)%Q.
Proof.
  apply (extract_price_whole_cents (mkTag "$12,345.67") (1234567 # 100)).
  reflexivity.
Defined.

Lemma re_search_skips (pre s : string) :
  forall_string (fun c => negb (digit_or_comma c)) pre = true ->
  re_search (pre ++ s) = re_search s.
Proof.
  induction pre as [|c pre IH]; [reflexivity|].
  cbn [forall_string]. intros H. apply andb_true_iff in H as [Hc Hp].
  apply negb_true_iff in Hc. cbn [append re_search match_here]. rewrite Hc. auto.
Qed.

(** X2: when nothing before the first run of digits and commas is a digit or
    a comma, and that run is followed by a point and two digits, the price is
    the digits of the run, commas dropped wherever they stand, plus the
    hundredths; what follows the two digits is ignored. *)
Theorem extract_price_after_symbol (pre run post : string) (d1 d2 : ascii) :
  forall_string (fun c => negb (digit_or_comma c)) pre = true ->
  run <> "" -> forall_string digit_or_comma run = true ->
  is_digit d1 = true -> is_digit d2 = true ->
  exists i,
    digits_value 0 (remove_commas run) = Some i /\
    extract_price (Some (mkTag (pre ++ run ++ cents_text d1 d2 ++ post))) =
      Some (Qred (Z.of_N (i * 100 + (10 * digit_val d1 + digit_val d2)) # 100)).
Proof.
  intros Hpre Hne Hrun H1 H2.
  destruct (float_of_price run d1 d2 Hrun H1 H2) as (i & Hi & Hf).
  exists i. split; [assumption|].
  unfold extract_price, extract_price_body. cbn [get_text].
  rewrite re_search_strip, (re_search_skips _ _ Hpre).
  assert (Hs : re_search (run ++ cents_text d1 d2 ++ post)
               = Some (run ++ cents_text d1 d2)).
  { destruct run as [|c run]; [congruence|]. cbn [append re_search].
    change (String c (run ++ cents_text d1 d2 ++ post))
      with (String c run ++ cents_text d1 d2 ++ post).
    now rewrite (match_here_complete (String c run) d1 d2 post Hne Hrun H1 H2). }
  rewrite Hs, Hf. reflexivity.
Qed.

Lemma extract_price_after_symbol_witness :
  exists i,
    digits_value 0 (remove_commas "1,2,,34") = Some i /\
    extract_price (Some (mkTag ("EUR " ++ "1,2,,34" ++ cents_text "5" "0" ++ " each"))) =
      Some (Qred (Z.of_N (i * 100 + (10 * digit_val "5" + digit_val "0")) # 100)).
Proof.
  apply (extract_price_after_symbol "EUR " "1,2,,34" " each" "5" "0");
    try reflexivity. discriminate.
Defined.

(** ** The extracted records *)

Lemma prefix_app (sub m b : string) :
  String.prefix sub m = true -> String.prefix sub (m ++ b) = true.
Proof.
  revert m. induction sub as [|a sub IH]; intros m;
    [intros _; destruct (m ++ b); reflexivity|].
  destruct m as [|c m]; cbn [String.prefix append]; [discriminate|].
  destruct (ascii_dec a c); [apply IH | discriminate].
Qed.

Lemma contains_app_l (sub m b : string) :
  contains sub m = true -> contains sub (m ++ b) = true.
Proof.
  induction m as [|c m IH].
  - cbn [contains]. destruct (String.prefix sub "") eqn:E; [|discriminate].
    intros _. destruct sub; [|discriminate]. cbn [append].
    destruct b; reflexivity.
  - cbn [contains]. destruct (String.prefix sub (String c m)) eqn:E.
    + intros _. change (String c m ++ b) with (String c (m ++ b)).
      cbn [contains]. change (String c (m ++ b)) with (String c m ++ b).
      now rewrite (prefix_app _ _ b E).
    + intros H. change (String c m ++ b) with (String c (m ++ b)).
      cbn [contains]. rewrite (IH H).
      now destruct (String.prefix sub (String c (m ++ b))).
Qed.

Lemma contains_append_r (sub a b : string) :
  contains sub b = true -> contains sub (a ++ b) = true.
Proof.
  intros Hb. induction a as [|c a IH]; [assumption|].
  cbn [append contains]. rewrite IH. now destruct (String.prefix _ _).
Qed.

Lemma contains_strip (sub s : string) :
  contains sub (strip s) = true -> contains sub s = true.
Proof.
  intros H. unfold strip in H.
  destruct (lstrip_decomp s) as (a & Hs & _).
  destruct (rstrip_decomp (lstrip s)) as (t & Hl & _).
  rewrite Hs, Hl. apply contains_append_r. now apply contains_app_l.
Qed.

Lemma in_firstn {A : Type} (n : nat) (l : list A) (x : A) :
  In x (firstn n l) -> In x l.
Proof.
  revert l. induction n as [|n IH]; intros [|y l]; cbn [firstn In]; try tauto.
  intros [->|H]; [now left | right; auto].
Qed.

Lemma kept_item_is_product (its : list Item) (it : Item) :
  In it (kept_items its) -> is_product it = true.
Proof.
  unfold kept_items. intros H. apply in_firstn in H.
  now apply filter_In in H.
Qed.

(** X3: no title that the extraction returns contains the placeholder phrase
    "Shop on eBay". *)
Theorem no_placeholder_title (select_items : string -> list Item)
    (markup title : string) :
  In title (fst (extract_records select_items markup)) ->
  contains "Shop on eBay" title = false.
Proof.
  rewrite extract_records_spec. cbn [fst]. intros H.
  apply in_map_iff in H as (it & <- & Hit).
  apply kept_item_is_product in Hit.
  unfold is_product in Hit. unfold record_title.
  destruct (title_elem it) as [te|]; [|discriminate].
  apply negb_true_iff in Hit.
  destruct (contains "Shop on eBay" (strip (get_text te))) eqn:E; [|reflexivity].
  apply contains_strip in E. congruence.
Qed.

Lemma no_placeholder_title_witness :
  contains "Shop on eBay" "Anime DVD" = false.
Proof.
  apply (no_placeholder_title
           (fun _ => [mkItem (Some (mkTag " Shop on eBay ")) None;
                      mkItem (Some (mkTag " Anime DVD ")) None])
           "<html>" "Anime DVD").
  left. reflexivity.
Defined.

(** X4: the extraction returns as many records as the page has products, but
    never more than 60. *)
Theorem record_count (select_items : string -> list Item) (markup : string) :
  let products := filter is_product (select_items markup) in
  let '(titles, prices) := extract_records select_items markup in
  List.length titles = Nat.min 60 (List.length products) /\
  List.length prices = Nat.min 60 (List.length products) /\
  (List.length titles <= 60)%nat.
Proof.
  cbv zeta. rewrite extract_records_spec. unfold kept_items.
  rewrite !length_map, length_firstn. unfold page_limit. repeat split. lia.
Qed.

(** *** Stripped titles *)

Lemma rstrip_cons_nonspace (c : ascii) (s : string) :
  is_space c = false -> rstrip (String c s) = String c (rstrip s).
Proof. intros H. cbn [rstrip]. rewrite H. now destruct (rstrip s). Qed.

Lemma rstrip_idem (s : string) : rstrip (rstrip s) = rstrip s.
Proof.
  induction s as [|c s IH]; [reflexivity|].
  cbn [rstrip]. destruct (rstrip s) as [|c' r] eqn:Er.
  - destruct (is_space c) eqn:Ec; [reflexivity|]. cbn [rstrip]. now rewrite Ec.
  - cbn [rstrip] in IH |- *. now rewrite IH.
Qed.

Lemma lstrip_clean (s : string) : clean_head (lstrip s).
Proof.
  induction s as [|c s IH]; [exact I|].
  cbn [lstrip]. destruct (is_space c) eqn:Ec; [exact IH | exact Ec].
Qed.

Lemma lstrip_of_clean (s : string) : clean_head s -> lstrip s = s.
Proof. destruct s as [|c s]; [reflexivity|]. cbn. now intros ->. Qed.

Lemma rstrip_clean (s : string) : clean_head s -> clean_head (rstrip s).
Proof.
  destruct s as [|c s]; [exact id|]. cbn [clean_head]. intros Hc.
  now rewrite (rstrip_cons_nonspace _ _ Hc).
Qed.

Lemma strip_fixed (s : string) :
  lstrip (strip s) = strip s /\ rstrip (strip s) = strip s /\
  strip (strip s) = strip s.
Proof.
  assert (Hl : lstrip (strip s) = strip s)
    by (apply lstrip_of_clean, rstrip_clean, lstrip_clean).
  assert (Hr : rstrip (strip s) = strip s) by apply rstrip_idem.
  repeat split; try assumption. unfold strip at 1. now rewrite Hl.
Qed.

(** X5: every returned title is stripped: it has no white space at either
    end, so stripping it again changes nothing. *)
Theorem titles_are_stripped (select_items : string -> list Item)
    (markup title : string) :
  In title (fst (extract_records select_items markup)) ->
  clean_head title /\ rstrip title = title /\ strip title = title.
Proof.
  rewrite extract_records_spec. cbn [fst]. intros H.
  apply in_map_iff in H as (it & <- & Hit).
  apply kept_item_is_product in Hit. unfold is_product in Hit.
  unfold record_title. destruct (title_elem it) as [te|]; [|discriminate].
  destruct (strip_fixed (get_text te)) as (Hl & Hr & Hs).
  repeat split; try assumption. apply rstrip_clean, lstrip_clean.
Qed.

Lemma titles_are_stripped_witness :
  clean_head "Anime DVD" /\ rstrip "Anime DVD" = "Anime DVD" /\
  strip "Anime DVD" = "Anime DVD".
Proof.
  apply (titles_are_stripped
           (fun _ => [mkItem (Some (mkTag "  Anime DVD   ")) None])
           "<html>" "Anime DVD").
  left. reflexivity.
Defined.

(** ** The requests of a run *)

(** X6: [with_page_size] only ever appends to the URL; its result names the
    page-size parameter; a URL that names it already is left as it is; and
    applying it twice is the same as applying it once. *)
Theorem with_page_size_spec (url : string) :
  (exists suffix, with_page_size url = url ++ suffix) /\
  contains "_ipg=" (with_page_size url) = true /\
  (contains "_ipg=" url = true <-> with_page_size url = url) /\
  with_page_size (with_page_size url) = with_page_size url.
Proof.
  split; [|split; [|split]].
  - unfold with_page_size. destruct (contains "_ipg=" url); cbn [negb].
    + exists "". now rewrite append_nil_r.
    + eexists. reflexivity.
  - apply with_page_size_has_param.
  - split.
    + intros H. unfold with_page_size. now rewrite H.
    + intros H. rewrite <- H. apply with_page_size_has_param.
  - apply with_page_size_idem.
Qed.

Section RunFacts.

Variable select_items : string -> list Item.
Variable requests_get : nat -> string -> exc Response.

Lemma attempts_loop_world (n a : nat) (url : string) (w : World) :
  let u := with_page_size url in
  let w' := snd (attempts_loop select_items requests_get (seq a n) url w) in
  exists k,
    (k <= n)%nat /\ ((0 < n)%nat -> (0 < k)%nat) /\
    requested w' = (requested w ++ repeat u k)%list /\
    sleeps w' = (sleeps w + (if (a =? 0)%nat then k - 1 else k))%nat.
Proof.
  revert a url w. induction n as [|n IH]; intros a url w; cbv zeta.
  - exists 0%nat. cbn [seq attempts_loop snd repeat].
    rewrite app_nil_r. repeat split; try lia. destruct (a =? 0)%nat; lia.
  - cbn [seq]. rewrite attempts_loop_step. cbv zeta.
    set (u := with_page_size url).
    assert (Hone : exists k, (k <= S n)%nat /\ ((0 < S n)%nat -> (0 < k)%nat) /\
              requested (after_attempt a u w) = (requested w ++ repeat u k)%list /\
              sleeps (after_attempt a u w)
              = (sleeps w + (if (a =? 0)%nat then k - 1 else k))%nat).
    { exists 1%nat. cbn [after_attempt requested sleeps repeat].
      repeat split; try lia. destruct a; cbn; lia. }
    destruct (fetch _) as [markup|[e|e|e|e]]; cbn [snd]; try exact Hone.
    destruct (a =? max_retries - 1)%nat; cbn [snd]; [exact Hone|].
    destruct (IH (S a) u (after_attempt a u w)) as (k & Hk & Hpos & Hreq & Hsl).
    exists (S k). unfold u in Hreq. rewrite with_page_size_idem in Hreq. fold u in Hreq.
    rewrite Hreq, Hsl. cbn [after_attempt requested sleeps repeat].
    rewrite <- app_assoc. cbn [app].
    repeat split; try lia. cbn [Nat.eqb]. destruct a; cbn; lia.
Qed.

(** X7: every run makes at least one request and at most three, every one of
    them to the URL with the page size; it sleeps once before each request
    but the first. *)
Theorem requests_and_sleeps (url : string) :
  let u := with_page_size url in
  let w := snd (scrape_ebay_results select_items requests_get url) in
  exists k,
    (1 <= k <= 3)%nat /\ requested w = repeat u k /\ sleeps w = (k - 1)%nat.
Proof.
  cbv zeta. unfold scrape_ebay_results.
  destruct (attempts_loop_world max_retries 0 url fresh) as (k & Hk & Hpos & Hreq & Hsl).
  exists k. unfold max_retries in *. cbn [fresh requested sleeps app Nat.eqb] in Hreq, Hsl.
  repeat split; try assumption; lia.
Qed.

Lemma scrape_result_cases (url : string) :
  match fst (scrape_ebay_results select_items requests_get url) with
  | Ok (Some r) => exists markup, r = extract_records select_items markup
  | Ok None => False
  | Raise (Exception msg) =>
      (exists e, msg = "Failed to fetch eBay results after 3 attempts: " ++ e) \/
      (exists e, msg = "Error processing eBay page: " ++ e)
  | Raise _ => False
  end.
Proof.
  unfold scrape_ebay_results. change (seq 0 max_retries) with [0; 1; 2]%nat.
  attempt_step.
  destruct (fetch _) as [markup|[e1|e1|e1|e1]]; cbn [fst]; eauto.
  attempt_step.
  destruct (fetch _) as [markup|[e2|e2|e2|e2]]; cbn [fst]; eauto.
  attempt_step.
  destruct (fetch _) as [markup|[e3|e3|e3|e3]]; cbn [fst]; eauto.
  left. exists e3. reflexivity.
Qed.

(** X8: a run ends in one of three ways: it returns the records of some
    response; or it raises the error of three failed attempts; or it raises
    the error of a failure while processing.  It never returns [None]. *)
Theorem scrape_outcomes (url : string) :
  match fst (scrape_ebay_results select_items requests_get url) with
  | Ok (Some r) => exists markup, r = extract_records select_items markup
  | Ok None => False
  | Raise (Exception msg) =>
      (exists e, msg = "Failed to fetch eBay results after 3 attempts: " ++ e) \/
      (exists e, msg = "Error processing eBay page: " ++ e)
  | Raise _ => False
  end.
Proof. apply scrape_result_cases. Qed.

(** X9: an error of a request that is not a transport error ends the run at
    once, as a processing error, without a retry: on the first attempt after
    one request, on the second after two. *)
Theorem no_retry_on_other_error (url : string) (e : exception) :
  (forall msg, e <> RequestException msg) ->
  let u := with_page_size url in
  let run := scrape_ebay_results select_items requests_get url in
  let wrapped := Raise (Exception ("Error processing eBay page: "
                                   ++ str_of_exception e)) in
  (fetch (requests_get 0%nat u) = Raise e -> run = (wrapped, mkWorld [u] 0)) /\
  (forall e1,
      fetch (requests_get 0%nat u) = Raise (RequestException e1) ->
      fetch (requests_get 1%nat u) = Raise e ->
      run = (wrapped, mkWorld [u; u] 1)).
Proof.
  intros Hne. cbv zeta. unfold scrape_ebay_results.
  change (seq 0 max_retries) with [0; 1; 2]%nat. split.
  - intros H0. attempt_step. rewrite H0.
    destruct e as [m|m|m|m]; [now destruct (Hne m)|reflexivity..].
  - intros e1 H0 H1. attempt_step. rewrite H0. attempt_step. rewrite H1.
    destruct e as [m|m|m|m]; [now destruct (Hne m)|reflexivity..].
Qed.

(** X10: when the first request succeeds, the run returns its records after
    that one request and without sleeping. *)
Theorem first_attempt_succeeds (url markup : string) :
  let u := with_page_size url in
  fetch (requests_get 0%nat u) = Ok markup ->
  scrape_ebay_results select_items requests_get url =
    (Ok (Some (extract_records select_items markup)), mkWorld [u] 0).
Proof.
  cbv zeta. intros H0. unfold scrape_ebay_results.
  change (seq 0 max_retries) with [0; 1; 2]%nat.
  attempt_step. now rewrite H0.
Qed.

End RunFacts.

Lemma no_retry_on_other_error_witness :
  let page := fun _ : string => @nil Item in
  let broken := fun (n : nat) (_ : string) =>
    @Raise Response (ValueError "bad header") in
  let u := "https://www.ebay.com/sch/i.html?_ipg=60" in
  scrape_ebay_results page broken "https://www.ebay.com/sch/i.html"
    = (Raise (Exception "Error processing eBay page: bad header"), mkWorld [u] 0).
Proof.
  intros page broken u.
  apply (proj1 (no_retry_on_other_error page broken
                  "https://www.ebay.com/sch/i.html" (ValueError "bad header")
                  ltac:(discriminate))).
  reflexivity.
Defined.

Lemma first_attempt_succeeds_witness :
  let page := fun _ : string =>
    [mkItem (Some (mkTag "Anime DVD Box Set")) (Some (mkTag "$9.99"))] in
  let up := fun (n : nat) (url : string) => Ok (mkResponse 200 "OK" url "<html>") in
  let u := "https://www.ebay.com/sch/i.html?_nkw=dvd&_ipg=60" in
  scrape_ebay_results page up "https://www.ebay.com/sch/i.html?_nkw=dvd"
    = (Ok (Some (["Anime DVD Box Set"], [Some (999 # 100)])), mkWorld [u] 0).
Proof.
  intros page up u.
  apply (first_attempt_succeeds page up
           "https://www.ebay.com/sch/i.html?_nkw=dvd" "<html>").
  reflexivity.
Defined.

(** ** Tokens *)

Lemma lower_char_not_upper (c : ascii) : is_upper (lower_char c) = false.
Proof. destruct c as [[] [] [] [] [] [] [] []]; reflexivity. Qed.

Lemma forall_string_map (p : ascii -> bool) (f : ascii -> ascii) (s : string) :
  (forall c, p (f c) = true) -> forall_string p (map_string f s) = true.
Proof.
  intros H. induction s as [|c s IH]; [reflexivity|].
  cbn [map_string forall_string]. now rewrite H, IH.
Qed.

Lemma forall_string_filter (p q : ascii -> bool) (s : string) :
  forall_string p s = true -> forall_string p (filter_string q s) = true.
Proof.
  induction s as [|c s IH]; [reflexivity|]. cbn [forall_string filter_string].
  intros H. apply andb_true_iff in H as [Hc Hs].
  destruct (q c); cbn [forall_string]; [rewrite Hc|]; auto.
Qed.

Lemma forall_string_rev (p : ascii -> bool) (s acc : string) :
  forall_string p acc = true -> forall_string p s = true ->
  forall_string p (rev_string acc s) = true.
Proof.
  revert acc. induction s as [|c s IH]; intros acc Ha Hs; [assumption|].
  cbn [forall_string] in Hs. apply andb_true_iff in Hs as [Hc Hs].
  cbn [rev_string]. apply IH; [|assumption]. cbn [forall_string]. now rewrite Hc.
Qed.

Lemma split_ws_forall (p : ascii -> bool) (s cur : string) :
  forall_string p cur = true -> forall_string p s = true ->
  Forall (fun t => forall_string p t = true) (split_ws cur s).
Proof.
  assert (Hflush : forall cur, forall_string p cur = true ->
            Forall (fun t => forall_string p t = true) (flush cur)).
  { intros [|c cur'] H; constructor; [|constructor].
    now apply forall_string_rev. }
  revert cur. induction s as [|c s IH]; intros cur Hc Hs; cbn [split_ws].
  - now apply Hflush.
  - cbn [forall_string] in Hs. apply andb_true_iff in Hs as [Hp Hs].
    destruct (is_space c).
    + apply Forall_app. split; [now apply Hflush | now apply IH].
    + apply IH; [|assumption]. cbn [forall_string]. now rewrite Hp.
Qed.

Lemma alpha_not_upper_is_lower (s : string) :
  forall_string is_alpha s = true ->
  forall_string (fun c => negb (is_upper c)) s = true ->
  forall_string is_lower s = true.
Proof.
  induction s as [|c s IH]; [reflexivity|]. cbn [forall_string].
  intros Ha Hu. apply andb_true_iff in Ha as [Hac Ha].
  apply andb_true_iff in Hu as [Huc Hu]. rewrite (IH Ha Hu), andb_true_r.
  unfold is_alpha in Hac. apply negb_true_iff in Huc.
  now rewrite Huc, orb_false_r in Hac.
Qed.

Section TokenFacts.

Variable word_tokenize : string -> exc (list string).
Variable stopwords_words : string -> exc (list string).

Lemma preprocess_text_fallback (text : string) (e : exception) :
  word_tokenize (cleaned text) = Raise e ->
  preprocess_text word_tokenize stopwords_words text =
    filter (keep_token stopwords_words) (str_split (cleaned text)).
Proof.
  intros H. unfold preprocess_text, preprocess_text_body. cbn [try_except].
  fold (cleaned text). now rewrite H.
Qed.

(** X11: when the tokenizer is not available and an ASCII text is split at
    white space instead, every token returned consists of the lower-case
    letters a to z only. *)
Theorem fallback_tokens_lowercase (text token : string) (e : exception) :
  is_ascii_text text = true ->
  word_tokenize (cleaned text) = Raise e ->
  In token (preprocess_text word_tokenize stopwords_words text) ->
  token <> "" /\ forall_string is_lower token = true.
Proof.
  intros _ Hwt. rewrite (preprocess_text_fallback _ _ Hwt).
  intros Hin. apply filter_In in Hin as [Hsplit Hkeep].
  unfold keep_token in Hkeep.
  apply andb_true_iff in Hkeep as [Hkeep _].
  apply andb_true_iff in Hkeep as [Halpha _].
  destruct token as [|c token]; [discriminate|]. split; [discriminate|].
  apply alpha_not_upper_is_lower; [exact Halpha|].
  assert (Hall : Forall (fun t => forall_string (fun c => negb (is_upper c)) t = true)
                        (str_split (cleaned text))).
  { apply split_ws_forall; [reflexivity|]. unfold cleaned.
    apply forall_string_filter. unfold lower. apply forall_string_map.
    intros x. now rewrite lower_char_not_upper. }
  rewrite Forall_forall in Hall. now apply Hall.
Qed.

(** *** Joining the titles *)

Lemma map_string_app (f : ascii -> ascii) (a b : string) :
  map_string f (a ++ b) = map_string f a ++ map_string f b.
Proof. induction a as [|c a IH]; cbn; [reflexivity | now rewrite IH]. Qed.

Lemma cleaned_app (a b : string) : cleaned (a ++ b) = cleaned a ++ cleaned b.
Proof. unfold cleaned, lower. now rewrite map_string_app, filter_string_app. Qed.

Lemma split_ws_at_space (a b cur : string) (c : ascii) :
  is_space c = true ->
  split_ws cur (a ++ String c b) = (split_ws cur a ++ split_ws "" b)%list.
Proof.
  intros Hc. revert cur. induction a as [|x a IH]; intros cur.
  - cbn [append split_ws]. now rewrite Hc.
  - cbn [append split_ws]. destruct (is_space x).
    + now rewrite IH, app_assoc.
    + apply IH.
Qed.

(** X12: when the tokenizer is not available, the tokens of the titles joined
    by spaces are the tokens of the first title, then those of the second, and
    so on: joining never merges or splits a word. *)
Theorem fallback_tokens_per_title (titles : list string) :
  (forall text, exists e, word_tokenize text = Raise e) ->
  preprocess_text word_tokenize stopwords_words (join " " titles) =
    flat_map (preprocess_text word_tokenize stopwords_words) titles.
Proof.
  intros Hwt.
  assert (Hfb : forall text,
             preprocess_text word_tokenize stopwords_words text =
             filter (keep_token stopwords_words) (str_split (cleaned text))).
  { intros text. destruct (Hwt (cleaned text)) as [e He].
    now apply preprocess_text_fallback with e. }
  induction titles as [|p rest IH]; [now rewrite Hfb|].
  destruct rest as [|q rest].
  - cbn [join flat_map]. now rewrite app_nil_r.
  - change (join " " (p :: q :: rest)) with (p ++ " " ++ join " " (q :: rest)).
    change (flat_map (preprocess_text word_tokenize stopwords_words) (p :: q :: rest))
      with (preprocess_text word_tokenize stopwords_words p
            ++ flat_map (preprocess_text word_tokenize stopwords_words) (q :: rest))%list.
    rewrite <- IH, !Hfb, !cleaned_app.
    change (cleaned " ") with " ". unfold str_split.
    change (" " ++ cleaned (join " " (q :: rest)))
      with (String " " (cleaned (join " " (q :: rest)))).
    rewrite split_ws_at_space by reflexivity.
    now rewrite filter_app.
Qed.

End TokenFacts.

Lemma fallback_tokens_lowercase_witness :
  let no_punkt := fun _ : string => @Raise (list string) (LookupError "punkt") in
  let no_corpus := fun _ : string => @Raise (list string) (LookupError "stopwords") in
  "boxset" <> "" /\ forall_string is_lower "boxset" = true.
Proof.
  intros no_punkt no_corpus.
  apply (fallback_tokens_lowercase no_punkt no_corpus
           "Brand New! Anime DVD box-set, the anime of 2020" "boxset"
           (LookupError "punkt") eq_refl eq_refl).
  vm_compute. right. right. left. reflexivity.
Defined.

Lemma fallback_tokens_per_title_witness :
  let no_punkt := fun _ : string => @Raise (list string) (LookupError "punkt") in
  let no_corpus := fun _ : string => @Raise (list string) (LookupError "stopwords") in
  preprocess_text no_punkt no_corpus (join " " ["Anime DVD"; "Rare anime, sealed"])
    = flat_map (preprocess_text no_punkt no_corpus) ["Anime DVD"; "Rare anime, sealed"].
Proof.
  intros no_punkt no_corpus.
  apply (fallback_tokens_per_title no_punkt no_corpus
           ["Anime DVD"; "Rare anime, sealed"]).
  intros text. exists (LookupError "punkt"). reflexivity.
Defined.

(** ** The ranking *)

Section RankingMore.

Local Open Scope list_scope.
Local Open Scope Z_scope.

Lemma dict_get_present (d : dict) (k : string) (c : Z) :
  NoDup (map fst d) -> In (k, c) d -> dict_get d k 0 = c.
Proof.
  induction d as [|[k' v'] d IH]; intros Hnd Hin; [destruct Hin|].
  cbn [map fst] in Hnd. inversion Hnd as [|? ? Hk Hnd']; subst.
  cbn [dict_get]. destruct Hin as [[= -> ->]|Hin].
  - now rewrite String.eqb_refl.
  - destruct (String.eqb_spec k k') as [->|_]; [|now apply IH].
    destruct Hk. apply in_map_iff. now exists (k', c).
Qed.

Lemma dict_get_missing (d : dict) (k : string) :
  ~ In k (map fst d) -> dict_get d k 0 = 0.
Proof.
  induction d as [|[k' v'] d IH]; intros Hn; [reflexivity|].
  cbn [map fst In] in Hn. cbn [dict_get].
  destruct (String.eqb_spec k k') as [->|_]; [tauto|]. apply IH. tauto.
Qed.

Lemma total_count_perm (l l' : list (string * Z)) :
  Permutation l l' -> total_count l = total_count l'.
Proof.
  induction 1 as [|x l l' _ IH|x y l|l l' l'' _ IH1 _ IH2]; cbn [total_count fold_right].
  - reflexivity.
  - fold (total_count l) (total_count l'). lia.
  - lia.
  - congruence.
Qed.

Lemma total_count_dict_set (d : dict) (k : string) (v : Z) :
  total_count (dict_set d k v) = total_count d - dict_get d k 0 + v.
Proof.
  induction d as [|[k' v'] d IH]; cbn [dict_set dict_get total_count fold_right snd].
  - lia.
  - destruct (String.eqb k k'); cbn [total_count fold_right snd].
    + lia.
    + fold (total_count (dict_set d k v)) (total_count d). lia.
Qed.

Lemma total_count_Counter (tokens : list string) :
  total_count (Counter tokens) = Z.of_nat (List.length tokens).
Proof.
  induction tokens as [|t tokens IH] using rev_ind; [reflexivity|].
  rewrite Counter_snoc, total_count_dict_set, IH, length_app. cbn [List.length]. lia.
Qed.

Lemma sorted_desc_of_descending (l : list (string * Z)) :
  descending l -> sorted_desc l = l.
Proof.
  unfold descending. induction 1 as [|x l Hl IH Hx]; [reflexivity|].
  cbn [sorted_desc]. rewrite IH. destruct l as [|y l]; [reflexivity|].
  cbn [insert_desc]. inversion Hx as [|? ? Hy _]; subst.
  now rewrite (proj2 (Z.leb_le _ _) Hy).
Qed.

Lemma descending_firstn (n : nat) (l : list (string * Z)) :
  descending l -> descending (firstn n l).
Proof.
  unfold descending. intros Hs. revert n.
  induction Hs as [|x l Hl IH Hx]; intros [|n]; cbn [firstn]; try constructor.
  - apply IH.
  - rewrite Forall_forall in *. intros y Hy. apply Hx. revert Hy. apply in_firstn.
Qed.

Lemma len_join_firstn (sep : string) (l : list string) (n : nat) :
  len (join sep (firstn n l)) <= len (join sep l).
Proof.
  revert n. induction l as [|x l IH]; intros [|n]; cbn [firstn].
  - apply Z.le_refl.
  - apply Z.le_refl.
  - apply len_nonneg.
  - rewrite !join_cons. specialize (IH n).
    destruct l as [|y l].
    + destruct n; cbn [firstn]; apply Z.le_refl.
    + destruct (firstn n (y :: l)) eqn:E.
      * rewrite !len_append. pose proof (len_nonneg sep).
        pose proof (len_nonneg (join sep (y :: l))). lia.
      * rewrite !len_append. lia.
Qed.

Variable word_tokenize : string -> exc (list string).
Variable stopwords_words : string -> exc (list string).

(** X13: the ranking has no key twice; its keys are the tokens; and looking a
    word up in it gives the number of its occurrences, 0 for a word that is
    not a token. *)
Theorem ranking_lookup (titles : list string) :
  let tokens := preprocess_text word_tokenize stopwords_words (join " " titles) in
  let ranking := analyze_keywords word_tokenize stopwords_words titles in
  NoDup (map fst ranking) /\
  (forall k, In k (map fst ranking) <-> In k tokens) /\
  (forall k, dict_get ranking k 0 = occurrences k tokens).
Proof.
  intros tokens ranking.
  assert (Hr : ranking = sorted_desc (Counter tokens))
    by apply ranking_is_sorted_counter.
  assert (Hperm : Permutation (map fst ranking) (first_appearances tokens)).
  { rewrite Hr, <- Counter_keys. apply Permutation_map, sorted_desc_perm. }
  assert (Hnd : NoDup (map fst ranking)).
  { eapply Permutation_NoDup; [symmetry; exact Hperm|].
    apply first_appearances_nodup. }
  assert (Hkeys : forall k, In k (map fst ranking) <-> In k tokens).
  { intros k. split; intros H.
    - apply (proj1 (first_appearances_in k tokens)).
      exact (Permutation_in _ Hperm H).
    - apply (Permutation_in _ (Permutation_sym Hperm)).
      now apply (proj2 (first_appearances_in k tokens)). }
  split; [exact Hnd|]. split; [exact Hkeys|].
  intros k. destruct (in_dec string_dec k (map fst ranking)) as [Hin|Hout].
  - apply dict_get_present; [exact Hnd|].
    rewrite Hr. apply (Permutation_in _ (Permutation_sym (sorted_desc_perm _))).
    rewrite Counter_spec. unfold tabulate. apply in_map_iff.
    exists k. split; [reflexivity|].
    apply (proj2 (first_appearances_in k tokens)). now apply Hkeys.
  - rewrite (dict_get_missing _ _ Hout). symmetry. apply occurrences_absent.
    intros H. apply Hout. now apply Hkeys.
Qed.

(** X14: the counts of the ranking add up to the number of tokens. *)
Theorem ranking_total (titles : list string) :
  total_count (analyze_keywords word_tokenize stopwords_words titles) =
    Z.of_nat (List.length
      (preprocess_text word_tokenize stopwords_words (join " " titles))).
Proof.
  unfold analyze_keywords, analyze_keywords_body. cbn [try_except].
  rewrite ranking_is_sorted_counter.
  rewrite (total_count_perm _ _ (sorted_desc_perm _)).
  apply total_count_Counter.
Qed.

(** X15: sorting the first ten entries of the ranking of [analyze_keywords]
    again changes nothing, so the keyword part of the suggested title is made
    of the first [n] entries of that ranking, in its order, for some [n] up to
    ten. *)
Theorem suggest_title_keeps_ranking_order (titles : list string) (max_length : Z) :
  let ranking := analyze_keywords word_tokenize stopwords_words titles in
  sorted_desc (firstn 10 (items ranking)) = firstn 10 ranking /\
  exists n,
    (n <= 10)%nat /\ (n <= List.length ranking)%nat /\
    keyword_title ranking max_length = titled_prefix n ranking.
Proof.
  intros ranking.
  assert (Hd : descending ranking).
  { unfold ranking, analyze_keywords, analyze_keywords_body. cbn [try_except].
    rewrite ranking_is_sorted_counter. apply sorted_desc_descending. }
  assert (Hs : sorted_desc (firstn 10 (items ranking)) = firstn 10 ranking)
    by (apply sorted_desc_of_descending, descending_firstn, Hd).
  split; [exact Hs|].
  destruct (keyword_title_greedy ranking max_length) as (n & Hn & Ht & _).
  rewrite Hs in Hn, Ht. rewrite length_firstn in Hn.
  exists n. split; [lia|]. split; [lia|].
  rewrite Ht. unfold titled_prefix. rewrite firstn_firstn.
  now replace (Nat.min n 10) with n by lia.
Qed.

End RankingMore.

(** ** The suggested title *)

(** X16: when the keyword that comes first after sorting is longer than the
    bound, no keyword is used at all, whatever the keywords after it: the
    title is the suffix alone, or empty when there is no room for it. *)
Theorem first_keyword_too_long (keyword_freq : dict) (max_length : Z)
    (keyword : string) (freq : Z) (rest : list (string * Z)) :
  sorted_desc (firstn 10 (items keyword_freq)) = (keyword, freq) :: rest ->
  (max_length < len keyword)%Z ->
  keyword_title keyword_freq max_length = "" /\
  suggest_title keyword_freq max_length =
    (if (15 <? max_length)%Z then " - New" else "").
Proof.
  intros Hs Hlong.
  assert (Ht : keyword_title keyword_freq max_length = "").
  { destruct (keyword_title_greedy keyword_freq max_length) as (n & _ & Ht & Hfit & _).
    rewrite Hs in Ht, Hfit. destruct n as [|n]; [exact Ht|].
    specialize (Hfit 1%nat ltac:(lia)).
    unfold titled_prefix in Hfit. cbn [firstn map join fst] in Hfit.
    rewrite len_title in Hfit. lia. }
  split; [exact Ht|]. rewrite suggest_title_eq, Ht. cbv zeta.
  change (len "") with 0%Z.
  replace (0 <? max_length - 15)%Z with (15 <? max_length)%Z; [reflexivity|].
  destruct (15 <? max_length)%Z eqn:E; symmetry;
    [apply Z.ltb_lt; apply Z.ltb_lt in E | apply Z.ltb_ge; apply Z.ltb_ge in E]; lia.
Qed.

Lemma first_keyword_too_long_witness :
  keyword_title [("collection", 1%Z); ("dvd", 4%Z); ("anime", 2%Z)] 2 = "" /\
  suggest_title [("collection", 1%Z); ("dvd", 4%Z); ("anime", 2%Z)] 2 =
    (if (15 <? 2)%Z then " - New" else "").
Proof.
  apply (first_keyword_too_long
           [("collection", 1%Z); ("dvd", 4%Z); ("anime", 2%Z)] 2
           "dvd" 4%Z [("anime", 2%Z); ("collection", 1%Z)]).
  - reflexivity.
  - reflexivity.
Defined.

(** X17: when all the keywords taken into account (the first ten, sorted) fit
    together within the bound, every one of them is in the title. *)
Theorem all_keywords_fit (keyword_freq : dict) (max_length : Z) :
  let sorted_keywords := sorted_desc (firstn 10 (items keyword_freq)) in
  let all := join ", " (map (fun kw => title (fst kw)) sorted_keywords) in
  (len all <= max_length)%Z ->
  keyword_title keyword_freq max_length = all.
Proof.
  intros sorted_keywords all Hfit.
  destruct (keyword_title_greedy keyword_freq max_length) as (n & Hn & Ht & _ & Hstop).
  fold sorted_keywords in Hn, Ht, Hstop.
  assert (Hall : all = titled_prefix (List.length sorted_keywords) sorted_keywords)
    by (unfold titled_prefix; now rewrite firstn_all).
  destruct (Nat.eq_dec n (List.length sorted_keywords)) as [->|Hne];
    [now rewrite Ht, Hall|].
  specialize (Hstop ltac:(lia)).
  unfold titled_prefix in Hstop. rewrite <- firstn_map in Hstop.
  pose proof (len_join_firstn ", " (map (fun kw => title (fst kw)) sorted_keywords) (S n)).
  fold all in H. lia.
Qed.

Lemma all_keywords_fit_witness :
  keyword_title [("anime", 3%Z); ("dvd", 5%Z); ("japanese", 3%Z)] 80 =
    "Dvd, Anime, Japanese".
Proof.
  apply (all_keywords_fit [("anime", 3%Z); ("dvd", 5%Z); ("japanese", 3%Z)] 80).
  discriminate.
Defined.

Lemma title_from_lower (s : string) :
  forall_string is_lower s = true -> title_from true s = s.
Proof.
  induction s as [|c s IH]; [reflexivity|]. cbn [forall_string title_from].
  intros H. apply andb_true_iff in H as [Hc Hs].
  assert (Ha : is_alpha c = true) by (unfold is_alpha; now rewrite Hc).
  rewrite Ha, (IH Hs). f_equal. unfold lower_char.
  destruct (is_upper c) eqn:Eu; [|reflexivity].
  revert Hc Eu. unfold is_lower, is_upper, in_range.
  rewrite !andb_true_iff, !N.leb_le. lia.
Qed.

(** X18: title-casing a word of the lower-case letters a to z upper-cases its
    first letter and leaves the rest as it is. *)
Theorem title_of_lowercase_word (c : ascii) (s : string) :
  forall_string is_lower (String c s) = true ->
  title (String c s) = String (upper_char c) s /\
  is_upper (upper_char c) = true.
Proof.
  cbn [forall_string]. intros H. apply andb_true_iff in H as [Hc Hs].
  unfold title. cbn [title_from].
  assert (Ha : is_alpha c = true) by (unfold is_alpha; now rewrite Hc).
  rewrite Ha, (title_from_lower _ Hs). split; [reflexivity|].
  clear Ha Hs s. revert Hc.
  destruct c as [[] [] [] [] [] [] [] []]; cbn; intros H; try reflexivity; discriminate.
Qed.

Lemma title_of_lowercase_word_witness :
  title "anime" = String (upper_char "a") "nime" /\ is_upper (upper_char "a") = true.
Proof.
  apply (title_of_lowercase_word "a" "nime"). reflexivity.
Defined.

(** ** Price statistics *)

Section StatsMore.

Local Open Scope list_scope.

Lemma valid_prices_app (a b : list (option Q)) :
  valid_prices (a ++ b) = valid_prices a ++ valid_prices b.
Proof. unfold valid_prices. apply flat_map_app. Qed.

(** X19: an absent price does not count, not even as zero: with or without
    it, anywhere in the list, the statistics are the same; they depend on the
    present prices only. *)
Theorem absent_prices_ignored (a b : list (option Q)) :
  calculate_price_stats (a ++ None :: b) = calculate_price_stats (a ++ b) /\
  calculate_price_stats (a ++ b) =
    calculate_price_stats (map Some (valid_prices a ++ valid_prices b)).
Proof.
  assert (Hv : forall v, valid_prices (map Some v) = v).
  { induction v as [|x v IH]; [reflexivity|]. cbn. f_equal. exact IH. }
  unfold calculate_price_stats, calculate_price_stats_body.
  rewrite Hv, !valid_prices_app. split; reflexivity.
Qed.

(** *** Rounding *)

Lemma round_half_even_bounds (x : Q) :
  let r := round_half_even x in
  let n := Qnum x in
  let d := Zpos (Qden x) in
  ((2 * r - 1) * d <= 2 * n <= (2 * r + 1) * d /\
   (2 * n = (2 * r - 1) * d \/ 2 * n = (2 * r + 1) * d -> Z.even r = true))%Z.
Proof.
  unfold round_half_even. cbv zeta.
  pose proof (Z.div_mod (Qnum x) (Zpos (Qden x)) ltac:(discriminate)) as Hdm.
  pose proof (Z.mod_pos_bound (Qnum x) (Zpos (Qden x)) ltac:(reflexivity)) as Hb.
  set (q := (Qnum x / Zpos (Qden x))%Z) in *.
  set (m := (Qnum x mod Zpos (Qden x))%Z) in *.
  destruct (2 * m <? Zpos (Qden x))%Z eqn:E1;
    [apply Z.ltb_lt in E1; split; lia|apply Z.ltb_ge in E1].
  destruct (Zpos (Qden x) <? 2 * m)%Z eqn:E2;
    [apply Z.ltb_lt in E2; split; lia|apply Z.ltb_ge in E2].
  destruct (Z.even q) eqn:Ev; (split; [lia|]); intros _; [exact Ev|].
  rewrite Z.even_add, Ev. reflexivity.
Qed.

Lemma round_half_even_mono (x y : Q) :
  (x <= y)%Q -> (round_half_even x <= round_half_even y)%Z.
Proof.
  intros Hxy. unfold Qle in Hxy.
  destruct (round_half_even_bounds x) as [[Hx1 _] Htx].
  destruct (round_half_even_bounds y) as [[_ Hy2] Hty].
  cbv zeta in *.
  set (rx := round_half_even x) in *. set (ry := round_half_even y) in *.
  set (n1 := Qnum x) in *. set (n2 := Qnum y) in *.
  set (d1 := Zpos (Qden x)) in *. set (d2 := Zpos (Qden y)) in *.
  assert (Hd1 : (0 < d1)%Z) by reflexivity.
  assert (Hd2 : (0 < d2)%Z) by reflexivity.
  destruct (Z_le_gt_dec rx ry) as [Hle|Hgt]; [exact Hle|exfalso].
  assert (H1 : ((2 * rx - 1) * d1 * d2 <= 2 * n1 * d2)%Z)
    by (apply Z.mul_le_mono_nonneg_r; lia).
  assert (H2 : (2 * n2 * d1 <= (2 * ry + 1) * d2 * d1)%Z)
    by (apply Z.mul_le_mono_nonneg_r; lia).
  assert (H3 : ((2 * rx - 1) * (d1 * d2) <= (2 * ry + 1) * (d1 * d2))%Z) by lia.
  assert (Hdd : (0 < d1 * d2)%Z) by lia.
  apply Z.mul_le_mono_pos_r in H3; [|exact Hdd].
  assert (Hr : rx = (ry + 1)%Z) by lia.
  assert (E1 : (2 * n1 * d2 = (2 * rx - 1) * d1 * d2)%Z) by (subst rx; lia).
  assert (E2 : (2 * n2 * d1 = (2 * ry + 1) * d2 * d1)%Z) by (subst rx; lia).
  apply Z.mul_cancel_r in E1; [|lia]. apply Z.mul_cancel_r in E2; [|lia].
  specialize (Htx (or_introl E1)). specialize (Hty (or_intror E2)).
  rewrite Hr, Z.even_add, Hty in Htx. discriminate.
Qed.

Lemma round2_mono (x y : Q) : (x <= y)%Q -> (round2 x <= round2 y)%Q.
Proof.
  intros Hxy. unfold round2. rewrite !Qred_correct.
  assert (H : (round_half_even (x * 100) <= round_half_even (y * 100))%Z).
  { apply round_half_even_mono. apply Qmult_le_compat_r; [exact Hxy|discriminate]. }
  unfold Qle. cbn [Qnum Qden]. lia.
Qed.

Lemma round2_of_cents (x : Q) (k : Z) : (x == k # 100)%Q -> (round2 x == x)%Q.
Proof.
  intros Hx. unfold round2.
  assert (Hr : round_half_even (x * 100) = k).
  { unfold Qeq in Hx. cbn [Qnum Qden] in Hx.
    unfold round_half_even. destruct x as [n d]. cbn [Qnum Qden Qmult] in *.
    rewrite Pos.mul_1_r.
    assert (Hn : (n * 100 = k * Zpos d)%Z) by lia.
    rewrite Hn, Z.div_mul, Z.mod_mul by discriminate. reflexivity. }
  rewrite Qred_correct, Hr. symmetry. exact Hx.
Qed.

(** *** Bounds of the mean and of the median *)

Lemma inject_succ (n : nat) :
  (inject_Z (Z.of_nat (S n)) == inject_Z (Z.of_nat n) + 1)%Q.
Proof. rewrite Nat2Z.inj_succ. unfold Z.succ. now rewrite inject_Z_plus. Qed.

Lemma fold_sum_lower (lo : Q) (data : list Q) (acc : Q) :
  (forall x, In x data -> lo <= x)%Q ->
  (acc + lo * inject_Z (Z.of_nat (List.length data)) <= fold_left Qplus data acc)%Q.
Proof.
  revert acc. induction data as [|x data IH]; intros acc Hlo.
  - cbn. change (inject_Z 0) with 0%Q. lra.
  - cbn [fold_left List.length].
    assert (Hx : (lo <= x)%Q) by (apply Hlo; now left).
    specialize (IH (acc + x)%Q (fun y Hy => Hlo y (or_intror Hy))).
    pose proof (inject_succ (List.length data)) as Hs.
    set (N := inject_Z (Z.of_nat (List.length data))) in *.
    set (N' := inject_Z (Z.of_nat (S (List.length data)))) in *.
    rewrite Hs. lra.
Qed.

Lemma fold_sum_upper (hi : Q) (data : list Q) (acc : Q) :
  (forall x, In x data -> x <= hi)%Q ->
  (fold_left Qplus data acc <= acc + hi * inject_Z (Z.of_nat (List.length data)))%Q.
Proof.
  revert acc. induction data as [|x data IH]; intros acc Hhi.
  - cbn. change (inject_Z 0) with 0%Q. lra.
  - cbn [fold_left List.length].
    assert (Hx : (x <= hi)%Q) by (apply Hhi; now left).
    specialize (IH (acc + x)%Q (fun y Hy => Hhi y (or_intror Hy))).
    pose proof (inject_succ (List.length data)) as Hs.
    set (N := inject_Z (Z.of_nat (List.length data))) in *.
    set (N' := inject_Z (Z.of_nat (S (List.length data)))) in *.
    rewrite Hs. lra.
Qed.

Lemma extremes_of_cents (prices : list (option Q)) (lo hi : Q) :
  let valid := valid_prices prices in
  let stats := calculate_price_stats prices in
  (forall x, In x valid -> exists k : Z, (x == k # 100)%Q) ->
  is_min valid lo -> is_max valid hi ->
  (min_price stats == lo)%Q /\ (max_price stats == hi)%Q.
Proof.
  intros valid stats Hcents [Hlo_in Hlo] [Hhi_in Hhi].
  unfold stats, calculate_price_stats, calculate_price_stats_body. fold valid.
  destruct valid as [|x data] eqn:Ev; [destruct Hlo_in|].
  cbn [nonempty negb].
  destruct (mean_spec x data) as (a & -> & _).
  destruct (median_spec x data) as (m & -> & _).
  cbn [bind py_min py_max try_except min_price max_price].
  destruct (fold_min_spec data x) as [Hmin_in Hmin].
  destruct (fold_max_spec data x) as [Hmax_in Hmax].
  cbv zeta in *.
  set (mn := fold_left (fun m0 y => if Qlt_le_dec y m0 then y else m0) data x) in *.
  set (mx := fold_left (fun m0 y => if Qlt_le_dec m0 y then y else m0) data x) in *.
  destruct (Hcents mn Hmin_in) as [k1 Hk1]. destruct (Hcents mx Hmax_in) as [k2 Hk2].
  rewrite (round2_of_cents _ _ Hk1), (round2_of_cents _ _ Hk2).
  split; apply Qle_antisym; auto.
Qed.

(** X20: when every present price is a whole number of hundredths, rounding
    changes neither the minimum nor the maximum: the two fields are the least
    and the greatest price. *)
Theorem whole_cent_extremes (prices : list (option Q)) (lo hi : Q) :
  let valid := valid_prices prices in
  let stats := calculate_price_stats prices in
  (forall x, In x valid -> exists k : Z, (x == k # 100)%Q) ->
  is_min valid lo -> is_max valid hi ->
  (min_price stats == lo)%Q /\ (max_price stats == hi)%Q.
Proof. apply extremes_of_cents. Qed.

Lemma whole_cent_extremes_witness :
  (min_price (calculate_price_stats [Some (999 # 100); None; Some (5 # 2)])
     == 5 # 2)%Q /\
  (max_price (calculate_price_stats [Some (999 # 100); None; Some (5 # 2)])
     == 999 # 100)%Q.
Proof.
  apply (whole_cent_extremes [Some (999 # 100); None; Some (5 # 2)]
           (5 # 2) (999 # 100)).
  - intros x [<-|[<-|[]]]; [exists 999%Z | exists 250%Z]; reflexivity.
  - split; [right; left; reflexivity|].
    intros x [<-|[<-|[]]]; discriminate.
  - split; [left; reflexivity|].
    intros x [<-|[<-|[]]]; discriminate.
Defined.

(** X21: in every result the average and the median lie between the minimum
    and the maximum, rounding included. *)
Theorem stats_ordered (prices : list (option Q)) :
  let stats := calculate_price_stats prices in
  (min_price stats <= average stats)%Q /\
  (average stats <= max_price stats)%Q /\
  (min_price stats <= median_price stats)%Q /\
  (median_price stats <= max_price stats)%Q.
Proof.
  cbv zeta. unfold calculate_price_stats, calculate_price_stats_body.
  destruct (valid_prices prices) as [|x data] eqn:Ev.
  - cbn. repeat split; discriminate.
  - cbn [nonempty negb].
    destruct (mean_spec x data) as (a & Ha & _). rewrite Ha.
    destruct (median_spec x data) as (m & -> & (s & Hperm & _ & Hm)).
    cbn [bind py_min py_max try_except average median_price min_price max_price].
    destruct (fold_min_spec data x) as [_ Hmin].
    destruct (fold_max_spec data x) as [_ Hmax].
    cbv zeta in *.
    set (mn := fold_left (fun m0 y => if Qlt_le_dec y m0 then y else m0) data x) in *.
    set (mx := fold_left (fun m0 y => if Qlt_le_dec m0 y then y else m0) data x) in *.
    assert (Hin : forall i, (i < List.length s)%nat ->
                            (mn <= nth i s 0 /\ nth i s 0 <= mx)%Q).
    { intros i Hi. pose proof (nth_In s 0%Q Hi) as Hn.
      apply (Permutation_in _ Hperm) in Hn. split; [now apply Hmin | now apply Hmax]. }
    assert (Hlen : List.length s = S (List.length data))
      by (now rewrite (Permutation_length Hperm)).
    assert (Hmid : (List.length s / 2 < List.length s)%nat)
      by (apply Nat.div_lt; lia).
    assert (Hmed : (mn <= m /\ m <= mx)%Q).
    { rewrite Hm. destruct (Nat.even (List.length s)).
      - destruct (Hin (List.length s / 2 - 1)%nat ltac:(lia)) as [H1 H2].
        destruct (Hin (List.length s / 2)%nat Hmid) as [H3 H4].
        split; [apply Qle_shift_div_l | apply Qle_shift_div_r]; try reflexivity; lra.
      - now apply Hin. }
    assert (Hmean : (mn <= a /\ a <= mx)%Q).
    { injection Ha as <-.
      pose proof (fold_sum_lower mn (x :: data) 0 Hmin) as Hl.
      pose proof (fold_sum_upper mx (x :: data) 0 Hmax) as Hu.
      fold (sum (x :: data)) in Hl, Hu.
      set (N := inject_Z (Z.of_nat (List.length (x :: data)))) in *.
      assert (HN : (0 < N)%Q)
        by (unfold N, Qlt, inject_Z; cbn [Qnum Qden List.length]; lia).
      set (P1 := (mn * N)%Q) in *. set (P2 := (mx * N)%Q) in *.
      split; [apply Qle_shift_div_l | apply Qle_shift_div_r]; try exact HN.
      - change (P1 <= sum (x :: data))%Q. lra.
      - change (sum (x :: data) <= P2)%Q. lra. }
    destruct Hmed, Hmean. repeat split; now apply round2_mono.
Qed.

End StatsMore.

(** ** The URL check *)

Lemma strip_prefix_spec (p s rest : string) :
  strip_prefix p s = Some rest <-> s = p ++ rest.
Proof.
  revert s. induction p as [|a p IH]; intros s; cbn [strip_prefix append].
  - split; [now intros [= ->] | now intros ->].
  - destruct s as [|b s]; [split; discriminate|].
    destruct (Ascii.eqb_spec a b) as [->|Hne].
    + rewrite IH. split; [now intros -> | now intros [= ->]].
    + split; [discriminate | intros [= H _]; congruence].
Qed.

Lemma any_star_spec (s : string) (k : string -> bool) :
  any_star s k = true <->
  exists m rest, s = m ++ rest /\ lang AnyStar m /\ k rest = true.
Proof.
  cbn [lang]. induction s as [|c s IH]; cbn [any_star].
  - split.
    + intros H. now exists "", "".
    + intros (m & rest & Hs & _ & Hk). destruct m; [|discriminate].
      cbn in Hs. now subst.
  - destruct (Ascii.eqb c newline) eqn:Ec.
    + split.
      * intros H. now exists "", (String c s).
      * intros (m & rest & Hs & Hm & Hk). destruct m as [|x m]; [cbn in Hs; now subst|].
        cbn [append] in Hs. injection Hs as -> _.
        cbn [forall_string] in Hm. rewrite Ec in Hm. discriminate.
    + rewrite orb_true_iff, IH. split.
      * intros [(m & rest & -> & Hm & Hk)|Hk].
        -- exists (String c m), rest. cbn [append forall_string].
           now rewrite Ec, Hm.
        -- now exists "", (String c s).
      * intros (m & rest & Hs & Hm & Hk). destruct m as [|x m].
        -- right. cbn in Hs. now subst.
        -- left. cbn [append] in Hs. injection Hs as -> ->.
           cbn [forall_string] in Hm. apply andb_true_iff in Hm as [_ Hm].
           now exists m, rest.
Qed.

Lemma re_match_lang (r : regex) (s : string) (k : string -> bool) :
  re_match r s k = true <->
  exists m rest, s = m ++ rest /\ lang r m /\ k rest = true.
Proof.
  revert s k. induction r as [p|r IH|r1 IH1 r2 IH2|r1 IH1 r2 IH2|]; intros s k;
    cbn [re_match lang].
  - destruct (strip_prefix p s) as [rest|] eqn:E.
    + apply strip_prefix_spec in E. split.
      * intros Hk. now exists p, rest.
      * intros (m & rest' & Hs & -> & Hk). rewrite E in Hs.
        assert (rest = rest') as ->; [|assumption].
        clear -Hs. induction p as [|c p IHp]; [assumption|].
        cbn [append] in Hs. injection Hs as Hs. auto.
    + split; [discriminate|]. intros (m & rest & Hs & -> & _).
      apply strip_prefix_spec in Hs. congruence.
  - rewrite orb_true_iff, IH. split.
    + intros [(m & rest & Hs & Hm & Hk)|Hk].
      * exists m, rest. auto.
      * exists "", s. auto.
    + intros (m & rest & Hs & [Hm| ->] & Hk).
      * left. now exists m, rest.
      * right. cbn in Hs. now subst.
  - rewrite orb_true_iff, IH1, IH2. split.
    + intros [(m & rest & Hs & Hm & Hk)|(m & rest & Hs & Hm & Hk)];
        exists m, rest; auto.
    + intros (m & rest & Hs & [Hm|Hm] & Hk); [left|right]; now exists m, rest.
  - rewrite IH1. split.
    + intros (m1 & rest1 & Hs & Hm1 & Hk). apply IH2 in Hk.
      destruct Hk as (m2 & rest & -> & Hm2 & Hk).
      exists (m1 ++ m2), rest. rewrite append_assoc.
      split; [assumption|]. split; [|assumption]. now exists m1, m2.
    + intros (m & rest & Hs & (m1 & m2 & -> & Hm1 & Hm2) & Hk).
      exists m1, (m2 ++ rest). rewrite <- append_assoc.
      split; [assumption|]. split; [assumption|]. apply IH2. now exists m2, rest.
  - apply any_star_spec.
Qed.

Lemma any_star_true (s : string) : any_star s (fun _ => true) = true.
Proof.
  induction s as [|c s IH]; [reflexivity|]. cbn [any_star].
  destruct (Ascii.eqb c newline); [reflexivity|]. now rewrite IH.
Qed.

(** X22: a URL is accepted exactly when it begins with "http" or "https",
    "://", possibly "www.", "ebay.", one of the five suffixes com, co.uk, de,
    fr, au, and "/"; what follows the "/" does not matter. *)
Theorem is_valid_ebay_url_spec (url : string) :
  is_valid_ebay_url url = true <->
  exists scheme www tld rest,
    In scheme ["http"; "https"] /\ In www [""; "www."] /\
    In tld ["com"; "co.uk"; "de"; "fr"; "au"] /\
    url = scheme ++ "://" ++ www ++ "ebay." ++ tld ++ "/" ++ rest.
Proof.
  unfold is_valid_ebay_url. split.
  - intros H. apply re_match_lang in H.
    destruct H as (m & rest & -> & Hm & _). unfold ebay_pattern in Hm.
    cbn [lang] in Hm.
    destruct Hm as (m1 & x1 & -> & -> & ms & x2 & -> & Hs & m3 & x3 & -> & ->
                    & mw & x4 & -> & Hw & m5 & x5 & -> & -> & mt & x6 & -> & Ht
                    & m7 & tail & -> & -> & _).
    exists ("http" ++ ms), mw, mt, (tail ++ rest).
    split; [destruct Hs as [->| ->]; cbn; auto|].
    split; [destruct Hw as [->| ->]; cbn; auto|].
    split; [destruct Ht as [->|[->|[->|[->| ->]]]]; cbn; auto 6|].
    now rewrite !append_assoc.
  - intros (scheme & www & tld & rest & Hs & Hw & Ht & ->).
    cbn [In] in Hs, Hw, Ht.
    destruct Hs as [<-|[<-|[]]]; destruct Hw as [<-|[<-|[]]];
      destruct Ht as [<-|[<-|[<-|[<-|[<-|[]]]]]];
      cbn; rewrite any_star_true; reflexivity.
Qed.

(** ** The page *)

Lemma length_enumerate (start : nat) (l : list string) :
  List.length (enumerate start l) = List.length l.
Proof.
  revert start. induction l as [|x l IH]; intros start; cbn; [reflexivity|].
  now rewrite IH.
Qed.

Section MainFacts.

Variable select_items : string -> list Item.
Variable requests_get : nat -> string -> exc Response.
Variable word_tokenize : string -> exc (list string).
Variable stopwords_words : string -> exc (list string).
Variable sort_values : list (string * Z) -> list (string * Z).

(** X23: what [main] shows, case by case.  Nothing, for an empty input.  The
    URL error, without any request, for a URL that the check rejects.
    Otherwise the URL passed the check and the scraper ran: its error is shown
    as an error message and never escapes; an empty result gives the warning;
    and results are shown for between 1 and 60 titles with as many prices,
    with the ranking of the titles, the suggested title made from that
    ranking, and the statistics of the prices. *)
Theorem main_outcomes (url : string) :
  let '(page, w) :=
    main select_items requests_get word_tokenize stopwords_words sort_values url in
  let run := scrape_ebay_results select_items requests_get url in
  match page with
  | Idle => url = "" /\ w = fresh
  | ShowError msg =>
      (url <> "" /\ is_valid_ebay_url url = false /\ w = fresh /\
       msg = "Please enter a valid eBay search URL") \/
      (is_valid_ebay_url url = true /\ w = snd run /\
       exists e, fst run = Raise (Exception e) /\
                 msg = "An error occurred: " ++ e)
  | ShowWarning msg =>
      is_valid_ebay_url url = true /\ w = snd run /\
      (exists prices, fst run = Ok (Some ([], prices))) /\
      msg = "No results found. Please try a different search."
  | ShowResults r =>
      is_valid_ebay_url url = true /\ w = snd run /\
      exists titles prices,
        fst run = Ok (Some (titles, prices)) /\
        (1 <= List.length titles <= 60)%nat /\
        List.length prices = List.length titles /\
        found_message r = "Found " ++ str_of_nat (List.length titles) ++ " items!" /\
        List.length (raw_titles r) = List.length titles /\
        let ranking := analyze_keywords word_tokenize stopwords_words titles in
        suggested_title r = suggest_title ranking 80 /\
        price_stats r = calculate_price_stats prices /\
        frequency_table r = sort_values ranking /\
        chart_data r = firstn 30 (sort_values ranking)
  end.
Proof.
  unfold main. destruct (String.eqb_spec url "") as [->|Hne]; cbn [negb].
  - split; reflexivity.
  - destruct (is_valid_ebay_url url) eqn:Ev; cbn [negb].
    + unfold main_try. pose proof (scrape_result_cases select_items requests_get url) as Hc.
      destruct (scrape_ebay_results select_items requests_get url) as [outcome w] eqn:Er.
      cbn [fst snd] in *.
      destruct outcome as [[[titles prices]|]|e]; cbn [bind try_except].
      * destruct Hc as [markup Hm].
        destruct titles as [|t titles]; cbn [nonempty negb try_except].
        -- repeat split; eauto.
        -- split; [reflexivity|]. split; [reflexivity|].
           exists (t :: titles), prices. split; [reflexivity|].
           pose proof (extract_records_spec select_items markup) as Hs.
           rewrite <- Hm in Hs. injection Hs as Ht Hp.
           assert (Hlen : (List.length (t :: titles) <= 60)%nat).
           { rewrite Ht, length_map. unfold kept_items.
             rewrite length_firstn. unfold page_limit. lia. }
           cbn [found_message raw_titles suggested_title price_stats
                frequency_table chart_data].
           split; [cbn [List.length] in *; lia|].
           split; [now rewrite Ht, Hp, !length_map|].
           split; [reflexivity|]. split; [apply length_enumerate|].
           cbv zeta. repeat split.
      * destruct Hc.
      * destruct e as [m|m|m|m]; [destruct Hc..|]. clear Hc.
        right. split; [reflexivity|]. split; [reflexivity|].
        exists m. split; reflexivity.
    + left. repeat split. exact Hne.
Qed.

End MainFacts.

(** ** From the page to the statistics *)

Lemma valid_prices_in (prices : list (option Q)) (x : Q) :
  In x (valid_prices prices) <-> In (Some x) prices.
Proof.
  unfold valid_prices. rewrite in_flat_map. split.
  - intros ([v|] & Hin & Hx); [|destruct Hx].
    destruct Hx as [->|[]]. exact Hin.
  - intros Hin. exists (Some x). split; [exact Hin | now left].
Qed.

(** X24: for the prices extracted from a page, the minimum and the maximum of
    the statistics are exactly the least and the greatest extracted price,
    rounding loses nothing, and they are not negative. *)
Theorem page_extremes_exact (select_items : string -> list Item)
    (markup : string) (lo hi : Q) :
  let prices := snd (extract_records select_items markup) in
  let stats := calculate_price_stats prices in
  is_min (valid_prices prices) lo -> is_max (valid_prices prices) hi ->
  (min_price stats == lo)%Q /\ (max_price stats == hi)%Q /\
  (0 <= min_price stats)%Q /\ (min_price stats <= max_price stats)%Q.
Proof.
  intros prices stats Hlo Hhi.
  assert (Hcents : forall x, In x (valid_prices prices) ->
                             exists k : Z, (0 <= k)%Z /\ (x == k # 100)%Q).
  { intros x Hx. apply valid_prices_in in Hx. unfold prices in Hx.
    rewrite extract_records_spec in Hx. cbn [snd] in Hx.
    apply in_map_iff in Hx as (it & Hit & _).
    now apply extract_price_cents in Hit. }
  destruct (extremes_of_cents prices lo hi) as [Hmin Hmax]; try assumption.
  { intros x Hx. destruct (Hcents x Hx) as (k & _ & Hk). now exists k. }
  fold stats in Hmin, Hmax. split; [exact Hmin|]. split; [exact Hmax|].
  destruct Hlo as [Hlo_in Hlo]. destruct Hhi as [Hhi_in Hhi].
  split.
  - rewrite Hmin. destruct (Hcents lo Hlo_in) as (k & Hk0 & Hk).
    rewrite Hk. unfold Qle. cbn [Qnum Qden]. lia.
  - rewrite Hmin, Hmax. now apply Hhi.
Qed.

Lemma page_extremes_exact_witness :
  let page := fun _ : string =>
    [mkItem (Some (mkTag "Anime DVD Box Set")) (Some (mkTag "$9.99"));
     mkItem (Some (mkTag "Rare Anime Collection")) None;
     mkItem (Some (mkTag "Anime Blu-ray")) (Some (mkTag "$1,250.00 or Best Offer"))] in
  let stats := calculate_price_stats (snd (extract_records page "<html>")) in
  (min_price stats == 999 # 100)%Q /\ (max_price stats == 1250 # 1)%Q /\
  (0 <= min_price stats)%Q /\ (min_price stats <= max_price stats)%Q.
Proof.
  intros page.
  apply (page_extremes_exact page "<html>" (999 # 100) (1250 # 1)).
  - split; [left; reflexivity|].
    intros x [<-|[<-|[]]]; discriminate.
  - split; [right; left; reflexivity|].
    intros x [<-|[<-|[]]]; discriminate.
Defined.
